(** * ansiext: control-character escaping for terminal output

    Shallow embedding of [internal/ansiext/ansi.go]: the functions [Escape]
    and [EscapePreservingANSI], and the properties of them that the
    specification states.

    Representation.  A Go [string] is a byte sequence, but both functions
    look at it only through its decoded runes ([for _, r := range content]
    and [[]rune(content)] decode the same way), and build their result only
    through [strings.Builder.WriteRune].  A string is therefore represented
    by the list of its runes.  A rune is an [int32], kept as a [Z]; the one
    rune addition of the source is written with its 32-bit wrap-around.
    Cursors ([i], [j], [k]) are slice indices; they never exceed
    [len(runes) + 2], so they are kept as [nat].  Indexing a slice out of
    range panics in Go: [index] returns [None] there and the scanner is
    written in the option monad, [None] standing for the panic. *)

From Equations Require Import Equations.
From Stdlib Require Import ZArith List Arith Lia Bool.
Import ListNotations.

Local Open Scope Z_scope.

(** ** Runes and the string builder *)

Definition rune := Z.

(** Two's complement wrap-around of [int32] arithmetic. *)
Definition wrap32 (z : Z) : Z := (z + 2 ^ 31) mod 2 ^ 32 - 2 ^ 31.

(** [unicode/utf8]: the replacement rune, the largest rune and the
    surrogate range. *)
Definition RuneError : rune := 0xFFFD.
Definition MaxRune : rune := 0x10FFFF.
Definition surrogateMin : rune := 0xD800.
Definition surrogateMax : rune := 0xDFFF.

(** [utf8.ValidRune]: the runes that have a UTF-8 encoding, and so the only
    ones that decoding a string can yield. *)
Definition ValidRune (r : rune) : bool :=
  ((0 <=? r) && (r <? surrogateMin)) || ((surrogateMax <? r) && (r <=? MaxRune)).

(** [ansi.DEL] of charmbracelet/x/ansi. *)
Definition DEL : rune := 0x7F.

Definition ESC : rune := 0x1b.        (* '\x1b' *)
Definition LBRACKET : rune := 0x5b.   (* '[' *)
Definition ESC_PICTURE : rune := 0x241B.  (* '␛' *)

(** A [strings.Builder], seen as the runes of the string it holds. *)
Definition Builder := list rune.

(** The rune that reads back from what [utf8.AppendRune] writes for [r]: a
    rune without an encoding is written as [RuneError]. *)
Definition written (r : rune) : rune :=
  if ValidRune r then r else RuneError.

(** [sb.WriteRune(r)] *)
Definition WriteRune (sb : Builder) (r : rune) : Builder :=
  sb ++ [written r].

(** ** The shared switch on a rune

    [switch { case r >= 0 && r <= 0x1f: ...; case r == ansi.DEL: ...;
    default: ... }], which both functions contain. *)
Definition substitute (sb : Builder) (r : rune) : Builder :=
  if (0 <=? r) && (r <=? 0x1f) then WriteRune sb (wrap32 (0x2400 + r))
  else if r =? DEL then WriteRune sb 0x2421
  else WriteRune sb r.

(** ** Escape

    [sb.Grow(len(content))] reserves capacity and changes no result; the
    [range] loop folds the switch over the runes of [content]. *)

Definition Escape (content : list rune) : list rune :=
  fold_left substitute content [].

(** ** EscapePreservingANSI *)

Local Open Scope nat_scope.

(** [runes[k]]; [None] is the out-of-range panic. *)
Definition index (runes : list rune) (k : nat) : option rune :=
  nth_error runes k.

(** [(c >= 'A' && c <= 'Z') || (c >= 'a' && c <= 'z')] *)
Definition isLetter (c : rune) : bool :=
  (((0x41 <=? c) && (c <=? 0x5a)) || ((0x61 <=? c) && (c <=? 0x7a)))%Z.

(** [(c >= '0' && c <= '9') || c == ';' || c == '?'] *)
Definition isParam (c : rune) : bool :=
  (((0x30 <=? c) && (c <=? 0x39)) || (c =? 0x3b) || (c =? 0x3f))%Z.

(** The variables of the main loop: the cursor [i] and the builder [sb]. *)
Record state : Type := mkState { cur : nat; buf : Builder }.

(** Keeps the outcome of a loop test as an equation, for the termination
    arguments below. *)
Definition inspect {A : Type} (a : A) : {b : A | a = b} := exist _ a eq_refl.

(** [for k := i; k <= j; k++ { sb.WriteRune(runes[k]) }] *)
Equations? copy_run (runes : list rune) (j k : nat) (sb : Builder)
  : option Builder by wf (j + 1 - k) lt :=
  copy_run runes j k sb with inspect (k <=? j) := {
    | exist _ false _ => Some sb
    | exist _ true Hk with index runes k := {
        | None => None
        | Some r => copy_run runes j (S k) (WriteRune sb r) } }.
Proof. apply Nat.leb_le in Hk. lia. Qed.

(** The inner loop [for j < len(runes) { ... }], started at [j]; it returns
    the values of [i], [sb] and [j] when the loop is left. *)
Equations? scan (runes : list rune) (i : nat) (sb : Builder) (j : nat)
  : option (nat * Builder * nat) by wf (length runes - j) lt :=
  scan runes i sb j with inspect (j <? length runes) := {
    | exist _ false _ => Some (i, sb, j)
    | exist _ true Hj with index runes j := {
        | None => None
        | Some c with isLetter c := {
            | true with copy_run runes j i sb := {
                | None => None
                | Some sb' => Some (j + 1, sb', j) }
            | false with isParam c := {
                | true => scan runes i sb (j + 1)
                | false => Some (i, sb, j) } } } }.
Proof. apply Nat.ltb_lt in Hj. lia. Qed.

(** The test after the inner loop:
    [if j >= len(runes) || !(letter runes[j]) { sb.WriteRune('␛'); i++ }]. *)
Definition after_scan (runes : list rune) (r : nat * Builder * nat)
  : option state :=
  let '(i, sb, j) := r in
  if length runes <=? j then Some (mkState (i + 1) (WriteRune sb ESC_PICTURE))
  else
    match index runes j with
    | None => None
    | Some c =>
        if negb (isLetter c)
        then Some (mkState (i + 1) (WriteRune sb ESC_PICTURE))
        else Some (mkState i sb)
    end.

(** [r == '\x1b' && i+1 < len(runes) && runes[i+1] == '['], evaluated left
    to right with short-circuit. *)
Definition sequence_start (runes : list rune) (i : nat) (r : rune)
  : option bool :=
  if (r =? ESC)%Z then
    if i + 1 <? length runes then
      match index runes (i + 1) with
      | None => None
      | Some c => Some (c =? LBRACKET)%Z
      end
    else Some false
  else Some false.

(** The escape-sequence branch of the loop body. *)
Definition sequence_branch (runes : list rune) (st : state) : option state :=
  match scan runes (cur st) (buf st) (cur st + 2) with
  | None => None
  | Some r => after_scan runes r
  end.

(** The branch of the loop body for an ordinary rune [r]. *)
Definition ordinary_branch (st : state) (r : rune) : state :=
  mkState (cur st + 1) (substitute (buf st) r).

(** One execution of the body of [for i < len(runes) { ... }]. *)
Definition iteration (runes : list rune) (st : state) : option state :=
  match index runes (cur st) with
  | None => None
  | Some r =>
      match sequence_start runes (cur st) r with
      | None => None
      | Some true => sequence_branch runes st
      | Some false => Some (ordinary_branch st r)
      end
  end.

(** ** Termination of the main loop

    The inner loop unfolded once, what it leaves behind, and the progress
    of the cursor that the definition of the main loop rests on. *)
Lemma scan_once (runes : list rune) (i : nat) (sb : Builder) (j : nat) :
  scan runes i sb j =
  if j <? length runes then
    match index runes j with
    | None => None
    | Some c =>
        if isLetter c then
          match copy_run runes j i sb with
          | None => None
          | Some sb' => Some (j + 1, sb', j)
          end
        else if isParam c then scan runes i sb (j + 1)
        else Some (i, sb, j)
    end
  else Some (i, sb, j).
Proof.
  rewrite scan_equation_1.
  generalize (inspect (j <? length runes)); intros [[] Hb];
    simp scan; [|rewrite Hb; reflexivity].
  destruct (index runes j) as [c|]; simp scan; [|rewrite Hb; reflexivity].
  destruct (isLetter c); simp scan.
  - destruct (copy_run runes j i sb); simp scan; rewrite Hb; reflexivity.
  - destruct (isParam c); simp scan; rewrite Hb; reflexivity.
Qed.

(** What the inner loop leaves behind: either it found a terminator at [j']
    and moved the cursor past it, or it left the cursor alone and stopped
    at the end of the input or on a rune that is not a letter. *)
Lemma scan_exit (runes : list rune) (i : nat) (sb : Builder) :
  forall (n j i' j' : nat) (sb' : Builder),
    length runes - j <= n ->
    scan runes i sb j = Some (i', sb', j') ->
    j <= j' /\
    ((i' = j' + 1 /\ j' < length runes /\
      exists c, index runes j' = Some c /\ isLetter c = true) \/
     (i' = i /\ sb' = sb /\
      (length runes <= j' \/
       exists c, index runes j' = Some c /\ isLetter c = false))).
Proof.
  induction n as [|n IH]; intros j i' j' sb' Hn; rewrite scan_once;
    destruct (j <? length runes) eqn:Hlt;
    try (apply Nat.ltb_lt in Hlt; lia);
    try (apply Nat.ltb_ge in Hlt; intros [= <- <- <-]; split; [lia|];
         right; repeat split; left; exact Hlt).
  apply Nat.ltb_lt in Hlt.
  destruct (index runes j) as [c|] eqn:Hc; [|discriminate].
  destruct (isLetter c) eqn:Hl.
  - destruct (copy_run runes j i sb); [|discriminate].
    intros [= <- <- <-]. split; [lia|]. left. repeat split; try lia.
    exists c. split; assumption.
  - destruct (isParam c).
    + intros H. apply IH in H; [|lia]. destruct H as [Hle H]. split; [lia|exact H].
    + intros [= <- <- <-]. split; [lia|]. right. repeat split.
      right. exists c. split; assumption.
Qed.

(** Every execution of the loop body moves the cursor forward. *)
Lemma iteration_advances (runes : list rune) (st st' : state) :
  iteration runes st = Some st' -> cur st < cur st'.
Proof.
  unfold iteration. destruct (index runes (cur st)) as [r|]; [|discriminate].
  destruct (sequence_start runes (cur st) r) as [[|]|]; [| |discriminate].
  - unfold sequence_branch.
    destruct (scan runes (cur st) (buf st) (cur st + 2)) as [[[i' sb'] j']|] eqn:Hs;
      [|discriminate].
    apply (scan_exit _ _ _ _ _ _ _ _ (Nat.le_refl _)) in Hs.
    destruct Hs as [Hle [(-> & Hlt & c & Hc & Hl)|(-> & -> & Hstop)]]; unfold after_scan.
    + apply Nat.leb_gt in Hlt. rewrite Hlt, Hc, Hl. simpl.
      intros [= <-]. simpl. lia.
    + destruct (length runes <=? j') eqn:E.
      * intros [= <-]. simpl. lia.
      * apply Nat.leb_gt in E. destruct Hstop as [Hge|(c & Hc & Hl)]; [lia|].
        rewrite Hc, Hl. simpl. intros [= <-]. simpl. lia.
  - intros [= <-]. simpl. lia.
Qed.

(** The main loop [for i < len(runes) { ... }]. *)
Equations? loop (runes : list rune) (st : state) : option state
  by wf (length runes - cur st) lt :=
  loop runes st with inspect (cur st <? length runes) := {
    | exist _ false _ => Some st
    | exist _ true Hi with inspect (iteration runes st) := {
        | exist _ None _ => None
        | exist _ (Some st') Hst => loop runes st' } }.
Proof.
  apply Nat.ltb_lt in Hi. apply iteration_advances in Hst. lia.
Qed.

(** [runes := []rune(content); i := 0; for ...; return sb.String()]
    ([sb.Grow] reserves capacity and changes no result). *)
Definition EscapePreservingANSI (content : list rune) : option (list rune) :=
  match loop content (mkState 0 []) with
  | None => None
  | Some st => Some (buf st)
  end.


(** ** A view of the loop body on lists

    The runes at and after the cursor decide what one execution of the loop
    body does.  [params l] is the run of parameter runes that [l] starts
    with; [lex c l] gives, for the rune [c] at the cursor and the runes [l]
    after it, how far the cursor moves and what is written. *)

Fixpoint params (l : list rune) : list rune :=
  match l with
  | c :: l' => if isParam c then c :: params l' else []
  | [] => []
  end.

Definition lex (c : rune) (l : list rune) : nat * list rune :=
  match l with
  | b :: l' =>
      if ((c =? ESC) && (b =? LBRACKET))%Z then
        match skipn (length (params l')) l' with
        | t :: _ =>
            if isLetter t
            then (length (params l') + 3, c :: b :: params l' ++ [t])
            else (1, [ESC_PICTURE])
        | [] => (1, [ESC_PICTURE])
        end
      else (1, substitute [] c)
  | [] => (1, substitute [] c)
  end.

(** What a run returns when [sb] has been written and the rest of the run
    fails or writes [out]. *)
Definition emitted (sb : Builder) (o : option (list rune)) : option (list rune) :=
  match o with
  | None => None
  | Some out => Some (sb ++ out)
  end.

(** ** Vocabulary of the specification *)

(** A control character: a rune in 0x00..0x1F, or DEL. *)
Definition isControl (c : rune) : bool :=
  (((0 <=? c) && (c <=? 0x1f)) || (c =? 0x7f))%Z.

(** The Control Picture mapping as the specification words it: U+2400 + c
    for c in 0x00..0x1F, U+2421 for DEL, and any other code point itself. *)
Definition picture (c : rune) : rune :=
  (if (0 <=? c) && (c <=? 0x1f) then 0x2400 + c
   else if c =? 0x7f then 0x2421
   else c)%Z.

(** The runes after a cursor start with ['[']. *)
Definition followed_by_bracket (l : list rune) : bool :=
  match l with
  | b :: _ => (b =? LBRACKET)%Z
  | [] => false
  end.

(** The runes after a parameter run end the attempt at a sequence: the
    input ends, or a rune comes that is neither a letter nor a parameter
    rune. *)
Definition interrupts (rest : list rune) : bool :=
  match rest with
  | t :: _ => negb (isLetter t) && negb (isParam t)
  | [] => true
  end.

(** [next runes st' st]: the main loop, in state [st], executes its body
    and gets to [st']. *)
Definition next (runes : list rune) (st' st : state) : Prop :=
  cur st < length runes /\ iteration runes st = Some st'.

(** ** Runes and their classes *)

Lemma isParam_not_letter (c : rune) : isParam c = true -> isLetter c = false.
Proof. unfold isParam, isLetter. lia. Qed.

Lemma isParam_valid (c : rune) : isParam c = true -> ValidRune c = true.
Proof.
  unfold isParam, ValidRune, surrogateMin, surrogateMax, MaxRune. lia.
Qed.

Lemma isLetter_valid (c : rune) : isLetter c = true -> ValidRune c = true.
Proof.
  unfold isLetter, ValidRune, surrogateMin, surrogateMax, MaxRune. lia.
Qed.

Lemma written_valid (r : rune) : ValidRune r = true -> written r = r.
Proof. unfold written. intros ->. reflexivity. Qed.

Lemma substitute_app (sb : Builder) (r : rune) :
  substitute sb r = sb ++ substitute [] r.
Proof.
  unfold substitute.
  destruct ((0 <=? r)%Z && (r <=? 31)%Z); [reflexivity|].
  destruct (r =? DEL)%Z; reflexivity.
Qed.

Lemma substitute_length (r : rune) : length (substitute [] r) = 1.
Proof.
  unfold substitute.
  destruct ((0 <=? r)%Z && (r <=? 31)%Z); [reflexivity|].
  destruct (r =? DEL)%Z; reflexivity.
Qed.

Lemma params_all (l : list rune) : Forall (fun c => isParam c = true) (params l).
Proof.
  induction l as [|c l IH]; simpl; [constructor|].
  destruct (isParam c) eqn:E; constructor; assumption.
Qed.

Lemma params_prefix (l : list rune) :
  l = params l ++ skipn (length (params l)) l.
Proof.
  induction l as [|c l IH]; simpl; [reflexivity|].
  destruct (isParam c); simpl; [f_equal; exact IH|reflexivity].
Qed.

Lemma params_length (l : list rune) : length (params l) <= length l.
Proof.
  induction l as [|c l IH]; simpl; [lia|]. destruct (isParam c); simpl; lia.
Qed.

Lemma params_app (ps q : list rune) :
  Forall (fun c => isParam c = true) ps ->
  params (ps ++ q) = ps ++ params q.
Proof.
  induction 1 as [|c ps Hc _ IH]; simpl; [reflexivity|].
  rewrite Hc, IH. reflexivity.
Qed.

Lemma map_written_params (ps : list rune) :
  Forall (fun c => isParam c = true) ps -> map written ps = ps.
Proof.
  induction 1 as [|c ps Hc _ IH]; simpl; [reflexivity|].
  rewrite IH, written_valid; [reflexivity|]. apply isParam_valid, Hc.
Qed.

(** ** The loops on lists *)

(** The copying loop, unfolded once. *)
Lemma copy_run_once (runes : list rune) (j k : nat) (sb : Builder) :
  copy_run runes j k sb =
  if k <=? j then
    match index runes k with
    | None => None
    | Some r => copy_run runes j (S k) (WriteRune sb r)
    end
  else Some sb.
Proof.
  rewrite copy_run_equation_1.
  generalize (inspect (k <=? j)); intros [[] Hb]; simp copy_run.
  - destruct (index runes k); simp copy_run; rewrite Hb; reflexivity.
  - rewrite Hb; reflexivity.
Qed.

Lemma skipn_index (l : list rune) (k : nat) (r : rune) :
  index l k = Some r -> skipn k l = r :: skipn (S k) l.
Proof.
  unfold index. revert l. induction k as [|k IH]; intros [|c l]; simpl;
    try discriminate.
  - intros [= ->]. reflexivity.
  - intros H. apply IH in H. exact H.
Qed.

Lemma index_app (pre l : list rune) (k : nat) :
  index (pre ++ l) (length pre + k) = index l k.
Proof.
  unfold index. rewrite nth_error_app2 by lia. f_equal. lia.
Qed.

Lemma index_here (pre l : list rune) (c : rune) :
  index (pre ++ c :: l) (length pre) = Some c.
Proof.
  rewrite <- (Nat.add_0_r (length pre)), index_app. reflexivity.
Qed.

(** The copying loop writes the runes at [k..j]. *)
Lemma copy_run_slice (runes : list rune) (j : nat) :
  j < length runes ->
  forall (n k : nat) (sb : Builder),
    j + 1 - k <= n -> k <= j + 1 ->
    copy_run runes j k sb =
    Some (sb ++ map written (firstn (j + 1 - k) (skipn k runes))).
Proof.
  intros Hj. induction n as [|n IH]; intros k sb Hn Hk; rewrite copy_run_once.
  - replace (k <=? j) with false by (symmetry; apply Nat.leb_gt; lia).
    replace (j + 1 - k) with 0 by lia. simpl. rewrite app_nil_r. reflexivity.
  - destruct (k <=? j) eqn:E.
    + apply Nat.leb_le in E.
      destruct (index runes k) as [r|] eqn:Hr.
      * rewrite IH by lia. rewrite (skipn_index _ _ _ Hr).
        replace (j + 1 - k) with (S (j + 1 - S k)) by lia. simpl.
        unfold WriteRune. rewrite <- app_assoc. reflexivity.
      * unfold index in Hr. apply nth_error_None in Hr. lia.
    + apply Nat.leb_gt in E. replace (j + 1 - k) with 0 by lia. simpl.
      rewrite app_nil_r. reflexivity.
Qed.

(** The inner loop runs over the parameter runes and stops on the first
    rune that is not one. *)
Lemma scan_params (i : nat) (sb : Builder) (l pre : list rune) :
  scan (pre ++ l) i sb (length pre) =
  let j := length pre + length (params l) in
  match skipn (length (params l)) l with
  | t :: _ =>
      if isLetter t then
        match copy_run (pre ++ l) j i sb with
        | None => None
        | Some sb' => Some (j + 1, sb', j)
        end
      else Some (i, sb, j)
  | [] => Some (i, sb, j)
  end.
Proof.
  revert pre. induction l as [|c l IH]; intros pre; rewrite scan_once.
  - rewrite app_nil_r, Nat.ltb_irrefl. simpl. rewrite Nat.add_0_r. reflexivity.
  - replace (length pre <? length (pre ++ c :: l)) with true
      by (symmetry; apply Nat.ltb_lt; rewrite length_app; simpl; lia).
    rewrite index_here. simpl params.
    destruct (isParam c) eqn:Hp.
    + rewrite (isParam_not_letter _ Hp).
      replace (pre ++ c :: l) with ((pre ++ [c]) ++ l)
        by (rewrite <- app_assoc; reflexivity).
      replace (length pre + 1) with (length (pre ++ [c]))
        by (rewrite length_app; reflexivity).
      rewrite IH. rewrite length_app. simpl.
      replace (length pre + 1 + length (params l))
        with (length pre + S (length (params l))) by lia.
      reflexivity.
    + simpl. rewrite Nat.add_0_r. destruct (isLetter c); reflexivity.
Qed.

Lemma sequence_branch_lex (pre l : list rune) (sb : Builder) :
  sequence_branch (pre ++ ESC :: LBRACKET :: l) (mkState (length pre) sb) =
  Some (mkState (length pre + fst (lex ESC (LBRACKET :: l)))
                (sb ++ snd (lex ESC (LBRACKET :: l)))).
Proof.
  unfold sequence_branch. simpl cur. simpl buf.
  assert (Hrunes : pre ++ ESC :: LBRACKET :: l = (pre ++ [ESC; LBRACKET]) ++ l)
    by (rewrite <- app_assoc; reflexivity).
  assert (Hlen : length pre + 2 = length (pre ++ [ESC; LBRACKET]))
    by (rewrite length_app; reflexivity).
  rewrite Hrunes, Hlen, scan_params. cbv zeta.
  change (lex ESC (LBRACKET :: l)) with
    (match skipn (length (params l)) l with
     | t :: _ =>
         if isLetter t
         then (length (params l) + 3, ESC :: LBRACKET :: params l ++ [t])
         else (1, [ESC_PICTURE])
     | [] => (1, [ESC_PICTURE])
     end).
  pose proof (params_prefix l) as Hl.
  pose proof (params_all l) as Hps.
  set (ps := params l) in *.
  destruct (skipn (length ps) l) as [|t rest] eqn:Hsk.
  - unfold after_scan.
    replace (length ((pre ++ [ESC; LBRACKET]) ++ l) <=?
             length (pre ++ [ESC; LBRACKET]) + length ps) with true.
    + reflexivity.
    + symmetry. apply Nat.leb_le. rewrite Hl at 1.
      rewrite !length_app. simpl. lia.
  - assert (Hj : index ((pre ++ [ESC; LBRACKET]) ++ l)
                   (length (pre ++ [ESC; LBRACKET]) + length ps) = Some t).
    { rewrite index_app. rewrite Hl. unfold index.
      rewrite nth_error_app2 by lia. rewrite Nat.sub_diag. reflexivity. }
    assert (Hlt : length (pre ++ [ESC; LBRACKET]) + length ps <
                  length ((pre ++ [ESC; LBRACKET]) ++ l)).
    { rewrite Hl at 1. rewrite !length_app. simpl. lia. }
    destruct (isLetter t) eqn:Ht.
    + rewrite (copy_run_slice _ _ Hlt _ _ _ (Nat.le_refl _))
        by (rewrite length_app; lia).
      unfold after_scan.
      replace (_ <=? _) with false by (symmetry; apply Nat.leb_gt; exact Hlt).
      rewrite Hj, Ht. simpl negb. cbv iota. simpl fst. simpl snd.
      f_equal. f_equal.
      * rewrite length_app. simpl. lia.
      * f_equal. rewrite <- Hrunes.
        rewrite skipn_app, skipn_all, Nat.sub_diag. simpl skipn.
        rewrite length_app. simpl length.
        replace (length pre + 2 + length ps + 1 - length pre)
          with (S (S (length ps + 1))) by lia.
        simpl firstn. rewrite Hl.
        rewrite firstn_app, firstn_all2 by lia.
        replace (length ps + 1 - length ps) with 1 by lia. simpl.
        rewrite map_app, (map_written_params _ Hps). simpl.
        rewrite (written_valid t) by (apply isLetter_valid, Ht).
        reflexivity.
    + unfold after_scan.
      replace (_ <=? _) with false by (symmetry; apply Nat.leb_gt; exact Hlt).
      rewrite Hj, Ht. reflexivity.
Qed.

(** One execution of the loop body with the cursor after [pre]. *)
Lemma iteration_lex (pre : list rune) (c : rune) (l : list rune) (sb : Builder) :
  iteration (pre ++ c :: l) (mkState (length pre) sb) =
  Some (mkState (length pre + fst (lex c l)) (sb ++ snd (lex c l))).
Proof.
  unfold iteration. simpl cur. rewrite index_here. unfold sequence_start.
  assert (Hord : Some (ordinary_branch (mkState (length pre) sb) c) =
                 Some (mkState (length pre + 1) (sb ++ substitute [] c))).
  { unfold ordinary_branch. simpl. rewrite substitute_app. reflexivity. }
  destruct l as [|b l].
  - replace (length pre + 1 <? length (pre ++ [c])) with false
      by (symmetry; apply Nat.ltb_ge; rewrite length_app; simpl; lia).
    simpl lex. destruct (c =? ESC)%Z; exact Hord.
  - replace (length pre + 1 <? length (pre ++ c :: b :: l)) with true
      by (symmetry; apply Nat.ltb_lt; rewrite length_app; simpl; lia).
    replace (index (pre ++ c :: b :: l) (length pre + 1)) with (Some b)
      by (rewrite index_app; reflexivity).
    unfold lex.
    destruct (c =? ESC)%Z eqn:Hc; [|exact Hord].
    destruct (b =? LBRACKET)%Z eqn:Hb; [|exact Hord].
    apply Z.eqb_eq in Hc, Hb. subst c b. simpl andb. cbv iota.
    apply sequence_branch_lex.
Qed.

(** The main loop, unfolded once. *)
Lemma loop_once (runes : list rune) (st : state) :
  loop runes st =
  if cur st <? length runes then
    match iteration runes st with
    | None => None
    | Some st' => loop runes st'
    end
  else Some st.
Proof.
  rewrite loop_equation_1.
  generalize (inspect (cur st <? length runes)); intros [[] Hb]; simp loop.
  - generalize (inspect (iteration runes st)); intros [[st'|] Hst]; simp loop;
      rewrite <- ?loop_equation_1; rewrite Hb, Hst; reflexivity.
  - rewrite Hb. reflexivity.
Qed.

(** The cursor moves by at least one rune and stays inside the input, and
    as many runes are written as the cursor passes. *)
Lemma lex_bounds (c : rune) (l : list rune) :
  1 <= fst (lex c l) <= S (length l) /\
  length (snd (lex c l)) = fst (lex c l).
Proof.
  unfold lex. destruct l as [|b l]; simpl.
  - rewrite substitute_length. lia.
  - destruct ((c =? ESC)%Z && (b =? LBRACKET)%Z);
      [|simpl; rewrite substitute_length; lia].
    pose proof (params_prefix l) as Hl.
    destruct (skipn (length (params l)) l) as [|t rest]; simpl; [lia|].
    destruct (isLetter t); simpl; [|lia].
    rewrite length_app. simpl.
    apply (f_equal (@length rune)) in Hl. rewrite length_app in Hl.
    simpl in Hl. lia.
Qed.

(** The loop started after [pre] does what the whole function does on the
    rest of the input. *)
Lemma loop_app (n : nat) :
  forall (l pre : list rune) (sb : Builder),
    length l <= n ->
    loop (pre ++ l) (mkState (length pre) sb) =
    match EscapePreservingANSI l with
    | None => None
    | Some out => Some (mkState (length (pre ++ l)) (sb ++ out))
    end.
Proof.
  assert (Hnil : forall pre sb,
    loop (pre ++ []) (mkState (length pre) sb) =
    match EscapePreservingANSI [] with
    | None => None
    | Some out => Some (mkState (length (pre ++ [])) (sb ++ out))
    end).
  { intros pre sb. rewrite loop_once. simpl cur.
    rewrite !app_nil_r, Nat.ltb_irrefl.
    change (EscapePreservingANSI []) with (Some (@nil rune)).
    cbv iota beta. rewrite app_nil_r. reflexivity. }
  induction n as [|n IH]; intros [|c l] pre sb Hn; simpl in Hn; try lia;
    try apply Hnil.
  destruct (lex_bounds c l) as [Hd Hw].
  assert (Hstep : forall p b,
    loop (p ++ c :: l) (mkState (length p) b) =
    match EscapePreservingANSI (skipn (fst (lex c l)) (c :: l)) with
    | None => None
    | Some out =>
        Some (mkState (length (p ++ c :: l)) ((b ++ snd (lex c l)) ++ out))
    end).
  { intros p b. rewrite loop_once. simpl cur.
    replace (length p <? length (p ++ c :: l)) with true
      by (symmetry; apply Nat.ltb_lt; rewrite length_app; simpl; lia).
    rewrite iteration_lex.
    pose proof (firstn_skipn (fst (lex c l)) (c :: l)) as Hsplit.
    assert (Htl : length (skipn (fst (lex c l)) (c :: l)) <= n)
      by (rewrite length_skipn; simpl length; lia).
    assert (Hhd : length (firstn (fst (lex c l)) (c :: l)) = fst (lex c l))
      by (rewrite length_firstn; simpl length; lia).
    set (hd := firstn (fst (lex c l)) (c :: l)) in *.
    set (tl := skipn (fst (lex c l)) (c :: l)) in *.
    rewrite <- Hsplit, app_assoc.
    replace (length p + fst (lex c l)) with (length (p ++ hd))
      by (rewrite length_app; lia).
    apply IH. exact Htl. }
  rewrite Hstep. unfold EscapePreservingANSI at 2.
  change (loop (c :: l) (mkState 0 []))
    with (loop ([] ++ c :: l) (mkState (length (@nil rune)) [])).
  rewrite Hstep.
  destruct (EscapePreservingANSI (skipn (fst (lex c l)) (c :: l))) as [out|];
    [|reflexivity].
  simpl. rewrite app_assoc. reflexivity.
Qed.

(** The function, unfolded by one execution of the loop body. *)
Lemma EscapePreservingANSI_cons (c : rune) (l : list rune) :
  EscapePreservingANSI (c :: l) =
  emitted (snd (lex c l))
          (EscapePreservingANSI (skipn (fst (lex c l)) (c :: l))).
Proof.
  destruct (lex_bounds c l) as [Hd Hw].
  unfold EscapePreservingANSI at 1.
  rewrite loop_once. simpl cur. simpl length. cbv iota beta.
  change (0 <? S (length l)) with true. cbv iota.
  change (iteration (c :: l) (mkState 0 []))
    with (iteration ([] ++ c :: l) (mkState (length (@nil rune)) [])).
  rewrite iteration_lex. simpl app. simpl length.
  pose proof (firstn_skipn (fst (lex c l)) (c :: l)) as Hsplit.
  assert (Hhd : length (firstn (fst (lex c l)) (c :: l)) = fst (lex c l))
    by (rewrite length_firstn; simpl length; lia).
  set (hd := firstn (fst (lex c l)) (c :: l)) in *.
  set (tl := skipn (fst (lex c l)) (c :: l)) in *.
  rewrite <- Hsplit. replace (0 + fst (lex c l)) with (length hd) by lia.
  rewrite (loop_app _ _ _ _ (Nat.le_refl _)).
  destruct (EscapePreservingANSI tl); reflexivity.
Qed.


(** ** Results of the function on lists *)

(** The function returns, and its result has as many runes as its input. *)
Lemma EscapePreservingANSI_returns (n : nat) :
  forall content : list rune,
    length content <= n ->
    exists out, EscapePreservingANSI content = Some out /\
                length out = length content.
Proof.
  induction n as [|n IH]; intros [|c l] Hn; simpl in Hn; try lia;
    try (exists []; split; reflexivity).
  destruct (lex_bounds c l) as [Hd Hw].
  destruct (IH (skipn (fst (lex c l)) (c :: l))) as (out & Hout & Hlen).
  { rewrite length_skipn. simpl length. lia. }
  exists (snd (lex c l) ++ out). rewrite EscapePreservingANSI_cons, Hout.
  split; [reflexivity|].
  rewrite length_app, Hw, Hlen, length_skipn. simpl length. lia.
Qed.

(** A rune that does not start an escape sequence goes through the switch. *)
Lemma EscapePreservingANSI_ordinary (c : rune) (l : list rune) :
  (c =? ESC)%Z && match l with b :: _ => (b =? LBRACKET)%Z | [] => false end
    = false ->
  EscapePreservingANSI (c :: l) =
  emitted (substitute [] c) (EscapePreservingANSI l).
Proof.
  intros H. rewrite EscapePreservingANSI_cons.
  assert (Hlex : lex c l = (1, substitute [] c)).
  { unfold lex. destruct l as [|b l]; [reflexivity|]. rewrite H. reflexivity. }
  rewrite Hlex. reflexivity.
Qed.

Lemma params_stop (l : list rune) :
  match skipn (length (params l)) l with
  | t :: _ => isParam t = false
  | [] => True
  end.
Proof.
  induction l as [|c l IH]; simpl; [exact I|].
  destruct (isParam c) eqn:E; simpl; [exact IH|exact E].
Qed.

(** What [lex] does at [ESC '['] followed by the parameter runes [ps] and
    then by [rest], where [rest] does not go on with a parameter rune. *)
Lemma lex_sequence (ps rest : list rune) :
  Forall (fun c => isParam c = true) ps ->
  params rest = [] ->
  lex ESC (LBRACKET :: ps ++ rest) =
  match rest with
  | t :: _ =>
      if isLetter t
      then (length ps + 3, ESC :: LBRACKET :: ps ++ [t])
      else (1, [ESC_PICTURE])
  | [] => (1, [ESC_PICTURE])
  end.
Proof.
  intros Hps Hrest. unfold lex.
  change ((ESC =? ESC)%Z && (LBRACKET =? LBRACKET)%Z) with true. cbv iota.
  rewrite (params_app _ rest Hps), Hrest, app_nil_r.
  rewrite skipn_app, skipn_all, Nat.sub_diag. reflexivity.
Qed.

(** A well-formed sequence is copied, and the function goes on after it. *)
Lemma EscapePreservingANSI_wellformed (ps : list rune) (t : rune) (post : list rune) :
  Forall (fun c => isParam c = true) ps ->
  isLetter t = true ->
  EscapePreservingANSI (ESC :: LBRACKET :: ps ++ t :: post) =
  emitted (ESC :: LBRACKET :: ps ++ [t]) (EscapePreservingANSI post).
Proof.
  intros Hps Ht. rewrite EscapePreservingANSI_cons.
  assert (Hrest : params (t :: post) = []).
  { simpl. destruct (isParam t) eqn:E; [|reflexivity].
    apply isParam_not_letter in E. congruence. }
  rewrite (lex_sequence ps (t :: post) Hps Hrest), Ht. simpl fst. simpl snd.
  replace (length ps + 3) with (S (S (length ps + 1))) by lia.
  simpl skipn. rewrite skipn_app, skipn_all2 by lia.
  replace (length ps + 1 - length ps) with 1 by lia. reflexivity.
Qed.

(** An invalid or truncated sequence: only the ESC is replaced, and the
    function goes on with the rune after it. *)
Lemma EscapePreservingANSI_invalid (ps rest : list rune) :
  Forall (fun c => isParam c = true) ps ->
  match rest with
  | t :: _ => isLetter t = false /\ isParam t = false
  | [] => True
  end ->
  EscapePreservingANSI (ESC :: LBRACKET :: ps ++ rest) =
  emitted [ESC_PICTURE] (EscapePreservingANSI (LBRACKET :: ps ++ rest)).
Proof.
  intros Hps Hrest. rewrite EscapePreservingANSI_cons.
  assert (Hpar : params rest = []).
  { destruct rest as [|t rest]; [reflexivity|]. simpl.
    destruct Hrest as [_ ->]. reflexivity. }
  rewrite (lex_sequence ps rest Hps Hpar).
  destruct rest as [|t rest]; [reflexivity|].
  destruct Hrest as [-> _]. reflexivity.
Qed.

Lemma emitted_emitted (a b : list rune) (o : option (list rune)) :
  emitted a (emitted b o) = emitted (a ++ b) o.
Proof. destruct o; simpl; [rewrite app_assoc|]; reflexivity. Qed.

Lemma fold_substitute (l : list rune) (sb : Builder) :
  fold_left substitute l sb = sb ++ fold_left substitute l [].
Proof.
  revert sb. induction l as [|c l IH]; intros sb; simpl.
  - rewrite app_nil_r. reflexivity.
  - rewrite IH, (IH (substitute [] c)), (substitute_app sb), app_assoc.
    reflexivity.
Qed.

Lemma Escape_cons (c : rune) (l : list rune) :
  Escape (c :: l) = substitute [] c ++ Escape l.
Proof. unfold Escape. simpl. apply fold_substitute. Qed.

(** Runes before the next ESC are handled as [Escape] handles them. *)
Lemma EscapePreservingANSI_plain (plain rest : list rune) :
  ~ In ESC plain ->
  EscapePreservingANSI (plain ++ rest) =
  emitted (Escape plain) (EscapePreservingANSI rest).
Proof.
  induction plain as [|c plain IH]; intros Hno.
  - simpl. destruct (EscapePreservingANSI rest); reflexivity.
  - simpl app. rewrite EscapePreservingANSI_ordinary.
    + rewrite IH by (intros H; apply Hno; right; exact H).
      rewrite emitted_emitted, Escape_cons. reflexivity.
    + replace (c =? ESC)%Z with false; [reflexivity|].
      symmetry. apply Z.eqb_neq. intros ->. apply Hno. left. reflexivity.
Qed.

(** An ESC further on does not change what [lex] sees before it. *)
Lemma lex_before_ESC (c : rune) (l rest : list rune) :
  lex c (l ++ ESC :: rest) = lex c l.
Proof.
  unfold lex. destruct l as [|b l]; simpl app; cbv iota beta.
  - change (ESC =? LBRACKET)%Z with false.
    rewrite andb_false_r. reflexivity.
  - destruct ((c =? ESC)%Z && (b =? LBRACKET)%Z); [|reflexivity].
    pose proof (params_prefix l) as Hl.
    pose proof (params_stop l) as Hstop.
    pose proof (params_all l) as Hps.
    pose proof (params_length l) as Hlen.
    assert (Hpar : params (l ++ ESC :: rest) = params l).
    { rewrite Hl at 1. rewrite <- app_assoc, (params_app _ _ Hps).
      destruct (skipn (length (params l)) l) as [|t q]; simpl.
      - rewrite app_nil_r. reflexivity.
      - rewrite Hstop, app_nil_r. reflexivity. }
    rewrite Hpar, skipn_app.
    replace (length (params l) - length l) with 0 by lia. simpl skipn.
    destruct (skipn (length (params l)) l) as [|t q]; reflexivity.
Qed.

(** The function works on the input before an ESC without regard to what
    comes from that ESC on. *)
Lemma EscapePreservingANSI_before_ESC (n : nat) :
  forall pre rest : list rune,
    length pre <= n ->
    EscapePreservingANSI (pre ++ ESC :: rest) =
    match EscapePreservingANSI pre with
    | None => None
    | Some a => emitted a (EscapePreservingANSI (ESC :: rest))
    end.
Proof.
  induction n as [|n IH]; intros [|c l] rest Hn; simpl in Hn; try lia;
    try (change (EscapePreservingANSI []) with (Some (@nil rune)); simpl;
         destruct (EscapePreservingANSI (ESC :: rest)); reflexivity).
  destruct (lex_bounds c l) as [Hd Hw].
  simpl app.
  rewrite (EscapePreservingANSI_cons c (l ++ ESC :: rest)),
    (EscapePreservingANSI_cons c l), lex_before_ESC.
  change (c :: l ++ ESC :: rest) with ((c :: l) ++ ESC :: rest).
  rewrite skipn_app.
  replace (fst (lex c l) - length (c :: l)) with 0 by (simpl length; lia).
  simpl (skipn 0 _).
  rewrite IH by (rewrite length_skipn; simpl length; lia).
  destruct (EscapePreservingANSI (skipn (fst (lex c l)) (c :: l))) as [a|];
    [|reflexivity].
  simpl. rewrite emitted_emitted. reflexivity.
Qed.

(** ** The loop body at a cursor inside the input *)

Lemma iteration_ordinary (pre : list rune) (c : rune) (l : list rune) (sb : Builder) :
  (c =? ESC)%Z && followed_by_bracket l = false ->
  iteration (pre ++ c :: l) (mkState (length pre) sb) =
  Some (ordinary_branch (mkState (length pre) sb) c).
Proof.
  intros H. unfold iteration. simpl cur. rewrite index_here.
  unfold sequence_start.
  destruct (c =? ESC)%Z; [|reflexivity]. simpl in H.
  destruct l as [|b l].
  - replace (length pre + 1 <? length (pre ++ [c])) with false
      by (symmetry; apply Nat.ltb_ge; rewrite length_app; simpl; lia).
    reflexivity.
  - replace (length pre + 1 <? length (pre ++ c :: b :: l)) with true
      by (symmetry; apply Nat.ltb_lt; rewrite length_app; simpl; lia).
    replace (index (pre ++ c :: b :: l) (length pre + 1)) with (Some b)
      by (rewrite index_app; reflexivity).
    simpl in H. rewrite H. reflexivity.
Qed.

(** A state whose cursor is inside the input cuts the input in two. *)
Lemma cursor_split (runes : list rune) (i : nat) :
  i < length runes ->
  exists pre c l, runes = pre ++ c :: l /\ length pre = i.
Proof.
  intros Hi. destruct (nth_error runes i) as [c|] eqn:Hc.
  - apply nth_error_split in Hc. destruct Hc as (pre & l & -> & Hlen).
    exists pre, c, l. split; [reflexivity|exact Hlen].
  - apply nth_error_None in Hc. lia.
Qed.

(** Inside the input the loop body never fails. *)
Lemma iteration_returns (runes : list rune) (st : state) :
  cur st < length runes -> exists st', iteration runes st = Some st'.
Proof.
  intros Hi. destruct (cursor_split _ _ Hi) as (pre & c & l & -> & Hlen).
  destruct st as [i sb]. simpl in Hlen. subst i.
  rewrite iteration_lex. eexists. reflexivity.
Qed.

Lemma next_decreases (runes : list rune) (st' st : state) :
  next runes st' st -> length runes - cur st' < length runes - cur st.
Proof.
  intros [Hi Hst]. apply iteration_advances in Hst. lia.
Qed.

(** From every state the loop returns, with the cursor at or after the end
    of the input. *)
Lemma loop_returns (runes : list rune) (n : nat) :
  forall st : state,
    length runes - cur st <= n ->
    exists st', loop runes st = Some st' /\ length runes <= cur st'.
Proof.
  induction n as [|n IH]; intros st Hn; rewrite loop_once;
    destruct (cur st <? length runes) eqn:Hi;
    try (apply Nat.ltb_ge in Hi; exists st; split; [reflexivity|exact Hi]);
    apply Nat.ltb_lt in Hi; [lia|].
  destruct (iteration_returns _ _ Hi) as [st' Hst]. rewrite Hst.
  apply IH. apply iteration_advances in Hst. lia.
Qed.

(** ** The switch, rune by rune *)

(** The rune addition never wraps, and a picture is written as it is. *)
Lemma substitute_exact (sb : Builder) (r : rune) :
  substitute sb r =
  sb ++ [if ((0 <=? r) && (r <=? 0x1f))%Z then (0x2400 + r)%Z
         else if (r =? 0x7f)%Z then 0x2421%Z
         else written r].
Proof.
  unfold substitute, WriteRune, DEL.
  destruct ((0 <=? r)%Z && (r <=? 31)%Z) eqn:E.
  - assert (Hw : wrap32 (9216 + r) = (9216 + r)%Z).
    { unfold wrap32.
      change (2 ^ 31)%Z with 2147483648%Z.
      change (2 ^ 32)%Z with 4294967296%Z.
      rewrite Z.mod_small; lia. }
    rewrite Hw, written_valid; [reflexivity|].
    unfold ValidRune, surrogateMin, surrogateMax, MaxRune. lia.
  - destruct (r =? 127)%Z; reflexivity.
Qed.

Lemma substitute_picture (c : rune) :
  ValidRune c = true -> substitute [] c = [picture c].
Proof.
  intros Hc. rewrite substitute_exact. unfold picture.
  rewrite (written_valid c Hc). reflexivity.
Qed.

Lemma picture_plain (c : rune) : isControl c = false -> picture c = c.
Proof.
  unfold isControl, picture. intros H.
  apply orb_false_iff in H. destruct H as [-> ->]. reflexivity.
Qed.

Lemma substitute_not_control (r : rune) :
  Forall (fun c => isControl c = false) (substitute [] r).
Proof.
  rewrite substitute_exact, app_nil_l. constructor; [|constructor].
  destruct ((0 <=? r)%Z && (r <=? 31)%Z) eqn:E.
  - unfold isControl. lia.
  - destruct (r =? 127)%Z eqn:E'; [reflexivity|].
    unfold written. destruct (ValidRune r); [|reflexivity].
    unfold isControl. rewrite E, E'. reflexivity.
Qed.

Lemma Escape_pictures (s : list rune) :
  Forall (fun c => ValidRune c = true) s -> Escape s = map picture s.
Proof.
  induction 1 as [|c s Hc _ IH]; [reflexivity|].
  rewrite Escape_cons, IH, (substitute_picture c Hc). reflexivity.
Qed.

Lemma Escape_length (s : list rune) : length (Escape s) = length s.
Proof.
  induction s as [|c s IH]; [reflexivity|].
  rewrite Escape_cons, length_app, substitute_length, IH. reflexivity.
Qed.

(** The runes of a sequence body, ['['] and the parameter runes, are
    neither ESC nor control characters: the switch writes them as they
    are. *)
Lemma body_rune_plain (c : rune) (sb : Builder) :
  c = LBRACKET \/ isParam c = true ->
  (c =? ESC)%Z = false /\ substitute sb c = sb ++ [c].
Proof.
  intros Hc.
  assert (H : (0x30 <= c <= 0x5b)%Z).
  { destruct Hc as [->|Hc]; [unfold LBRACKET; lia|].
    unfold isParam in Hc. lia. }
  split; [unfold ESC; lia|].
  rewrite substitute_exact.
  replace ((0 <=? c)%Z && (c <=? 31)%Z) with false by lia.
  replace (c =? 127)%Z with false by lia.
  rewrite written_valid; [reflexivity|].
  unfold ValidRune, surrogateMin, surrogateMax, MaxRune. lia.
Qed.

Lemma Escape_body (l : list rune) :
  Forall (fun c => c = LBRACKET \/ isParam c = true) l ->
  Escape l = l /\ ~ In ESC l.
Proof.
  induction 1 as [|c l Hc _ [IH1 IH2]]; [split; [reflexivity|intros []]|].
  destruct (body_rune_plain c [] Hc) as [Hesc Hsub].
  split.
  - rewrite Escape_cons, Hsub, IH1. reflexivity.
  - intros [H|H]; [|exact (IH2 H)]. subst c. discriminate Hesc.
Qed.

Lemma interrupts_head (rest : list rune) :
  interrupts rest = true ->
  match rest with
  | t :: _ => isLetter t = false /\ isParam t = false
  | [] => True
  end.
Proof.
  destruct rest as [|t rest]; simpl; [intros _; exact I|].
  intros H. apply andb_prop in H. destruct H as [H1 H2].
  apply negb_true_iff in H1, H2. split; assumption.
Qed.

Lemma sequence_start_here (pre : list rune) (c : rune) (l : list rune) :
  sequence_start (pre ++ c :: l) (length pre) c =
  Some ((c =? ESC)%Z && followed_by_bracket l).
Proof.
  unfold sequence_start. destruct (c =? ESC)%Z; [|reflexivity].
  destruct l as [|b l].
  - replace (length pre + 1 <? length (pre ++ [c])) with false
      by (symmetry; apply Nat.ltb_ge; rewrite length_app; simpl; lia).
    reflexivity.
  - replace (length pre + 1 <? length (pre ++ c :: b :: l)) with true
      by (symmetry; apply Nat.ltb_lt; rewrite length_app; simpl; lia).
    replace (index (pre ++ c :: b :: l) (length pre + 1)) with (Some b)
      by (rewrite index_app; reflexivity).
    reflexivity.
Qed.

(** The runes after ESC "[" are parameter runes followed either by a
    letter or by what interrupts the sequence. *)
Lemma sequence_shape (l : list rune) :
  (exists ps t post,
     l = ps ++ t :: post /\ params l = ps /\
     Forall (fun c => isParam c = true) ps /\ isLetter t = true) \/
  (exists ps rest,
     l = ps ++ rest /\ params l = ps /\
     Forall (fun c => isParam c = true) ps /\ interrupts rest = true).
Proof.
  pose proof (params_prefix l) as Hl.
  pose proof (params_stop l) as Hstop.
  pose proof (params_all l) as Hps.
  destruct (skipn (length (params l)) l) as [|t post].
  - right. exists (params l), []. repeat split; assumption.
  - destruct (isLetter t) eqn:Ht.
    + left. exists (params l), t, post. repeat split; assumption.
    + right. exists (params l), (t :: post). repeat split; try assumption.
      simpl. rewrite Ht, Hstop. reflexivity.
Qed.

(** * The claims of the specification *)

(** C4.  [Escape] maps the code points of its input one by one and in
    order: a code point in 0x00..0x1F becomes U+2400 plus it, DEL becomes
    U+2421, any other code point stays; so a string without control
    characters is returned as it is.  (Code points are the runes that a
    string decodes to, [ValidRune].) *)
Theorem Escape_maps_pictures (s : list rune) :
  Forall (fun c => ValidRune c = true) s ->
  Escape s = map picture s /\
  (forall k c, nth_error s k = Some c ->
     nth_error (Escape s) k =
     Some (if ((0 <=? c) && (c <=? 0x1f))%Z then (0x2400 + c)%Z
           else if (c =? 0x7f)%Z then 0x2421%Z else c)) /\
  (Forall (fun c => isControl c = false) s -> Escape s = s).
Proof.
  intros Hs. pose proof (Escape_pictures s Hs) as Hmap.
  split; [exact Hmap|]. split.
  - intros k c Hk. rewrite Hmap, nth_error_map, Hk. reflexivity.
  - intros Hplain. rewrite Hmap. clear Hmap Hs.
    induction Hplain as [|c s Hc _ IH]; [reflexivity|].
    simpl. rewrite IH, (picture_plain c Hc). reflexivity.
Qed.

(** Witness of C4 on "a", 0x01, DEL, 0x1F, 0x00, "é" and on "ab". *)
Lemma Escape_maps_pictures_witness :
  Forall (fun c => ValidRune c = true) [0x61; 0x01; 0x7f; 0x1f; 0x00; 0xe9]%Z /\
  Escape [0x61; 0x01; 0x7f; 0x1f; 0x00; 0xe9]%Z =
    [0x61; 0x2401; 0x2421; 0x241f; 0x2400; 0xe9]%Z /\
  Escape [0x61; 0x62]%Z = [0x61; 0x62]%Z.
Proof.
  split; [repeat constructor|]. split.
  - apply (Escape_maps_pictures [0x61; 0x01; 0x7f; 0x1f; 0x00; 0xe9]%Z).
    repeat constructor.
  - apply (Escape_maps_pictures [0x61; 0x62]%Z); repeat constructor.
Defined.

(** C9.  The output of [Escape] holds no control character: no code point
    in 0x00..0x1F and no DEL. *)
Theorem Escape_output_has_no_control (s : list rune) :
  Forall (fun c => isControl c = false) (Escape s) /\
  Forall (fun c => ~ (0 <= c <= 0x1f)%Z /\ c <> 0x7f%Z) (Escape s).
Proof.
  assert (H : Forall (fun c => isControl c = false) (Escape s)).
  { induction s as [|c s IH]; [constructor|].
    rewrite Escape_cons. apply Forall_app. split; [|exact IH].
    apply substitute_not_control. }
  split; [exact H|].
  apply (Forall_impl _ (P := fun c => isControl c = false)); [|exact H].
  intros c Hc. unfold isControl in Hc. lia.
Qed.

(** C10.  On an input without ESC, [EscapePreservingANSI] returns what
    [Escape] returns. *)
Theorem EscapePreservingANSI_without_ESC (s : list rune) :
  ~ In ESC s -> EscapePreservingANSI s = Some (Escape s).
Proof.
  intros Hno. rewrite <- (app_nil_r s) at 1.
  rewrite (EscapePreservingANSI_plain s [] Hno).
  change (EscapePreservingANSI []) with (Some (@nil rune)).
  simpl. rewrite app_nil_r. reflexivity.
Qed.

(** Witness of C10 on "a", 0x01, "[", "m", DEL. *)
Lemma EscapePreservingANSI_without_ESC_witness :
  ~ In ESC [0x61; 0x01; 0x5b; 0x6d; 0x7f]%Z /\
  EscapePreservingANSI [0x61; 0x01; 0x5b; 0x6d; 0x7f]%Z =
    Some (Escape [0x61; 0x01; 0x5b; 0x6d; 0x7f]%Z).
Proof.
  assert (Hno : ~ In ESC [0x61; 0x01; 0x5b; 0x6d; 0x7f]%Z).
  { simpl. intros [H|[H|[H|[H|[H|[]]]]]]; discriminate H. }
  split; [exact Hno|].
  exact (EscapePreservingANSI_without_ESC _ Hno).
Defined.

(** C1, as the code has it.  On ESC, "[", "b", "a", "!", "d" the function
    returns its input unchanged: "b" is a letter, so ESC "[" "b" is a
    well-formed sequence without parameters; the first execution of the
    loop body copies these three runes and moves the cursor to 3, and "a",
    "!", "d" then pass through the switch. *)
Theorem EscapePreservingANSI_letter_after_bracket :
  EscapePreservingANSI [0x1b; 0x5b; 0x62; 0x61; 0x21; 0x64]%Z =
    Some [0x1b; 0x5b; 0x62; 0x61; 0x21; 0x64]%Z /\
  iteration [0x1b; 0x5b; 0x62; 0x61; 0x21; 0x64]%Z (mkState 0 []) =
    Some (mkState 3 [0x1b; 0x5b; 0x62]%Z).
Proof. split; vm_compute; reflexivity. Qed.

(** C1, as the specification states it, fails: the result for ESC, "[",
    "b", "a", "!", "d" does not start with U+241B. *)
Lemma EscapePreservingANSI_letter_after_bracket_not_escaped :
  EscapePreservingANSI [0x1b; 0x5b; 0x62; 0x61; 0x21; 0x64]%Z <>
    Some [0x241B; 0x5b; 0x62; 0x61; 0x21; 0x64]%Z.
Proof. vm_compute. discriminate. Qed.

(** C2.  A well-formed run, ESC "[" followed by parameter runes [ps] and
    one letter [t], found after [pre] and before [post]: the execution of
    the loop body at its ESC writes the whole run and moves the cursor just
    past [t], and the result of the function holds the run verbatim
    between the results for [pre] and for [post].  In particular the
    function returns ESC "[1;31mERROR" ESC "[0m" as it is. *)
Theorem EscapePreservingANSI_copies_wellformed
  (pre ps : list rune) (t : rune) (post : list rune) :
  Forall (fun c => isParam c = true) ps ->
  isLetter t = true ->
  (forall sb,
     iteration (pre ++ (ESC :: LBRACKET :: ps ++ [t]) ++ post)
               (mkState (length pre) sb) =
     Some (mkState (length pre + length (ESC :: LBRACKET :: ps ++ [t]))
                   (sb ++ ESC :: LBRACKET :: ps ++ [t]))) /\
  (exists a b,
     EscapePreservingANSI pre = Some a /\
     EscapePreservingANSI post = Some b /\
     EscapePreservingANSI (pre ++ (ESC :: LBRACKET :: ps ++ [t]) ++ post) =
       Some (a ++ (ESC :: LBRACKET :: ps ++ [t]) ++ b)) /\
  EscapePreservingANSI
    [0x1b; 0x5b; 0x31; 0x3b; 0x33; 0x31; 0x6d; 0x45; 0x52; 0x52; 0x4f; 0x52;
     0x1b; 0x5b; 0x30; 0x6d]%Z =
  Some [0x1b; 0x5b; 0x31; 0x3b; 0x33; 0x31; 0x6d; 0x45; 0x52; 0x52; 0x4f; 0x52;
        0x1b; 0x5b; 0x30; 0x6d]%Z.
Proof.
  intros Hps Ht.
  assert (Hrun : (ESC :: LBRACKET :: ps ++ [t]) ++ post =
                 ESC :: LBRACKET :: ps ++ t :: post).
  { simpl. rewrite <- app_assoc. reflexivity. }
  assert (Hrest : params (t :: post) = []).
  { simpl. destruct (isParam t) eqn:E; [|reflexivity].
    apply isParam_not_letter in E. congruence. }
  rewrite Hrun. split; [|split].
  - intros sb. rewrite iteration_lex.
    rewrite (lex_sequence ps (t :: post) Hps Hrest), Ht. simpl fst. simpl snd.
    simpl length. rewrite length_app. simpl length.
    replace (S (S (length ps + 1))) with (length ps + 3) by lia. reflexivity.
  - destruct (EscapePreservingANSI_returns _ pre (Nat.le_refl _)) as (a & Ha & _).
    destruct (EscapePreservingANSI_returns _ post (Nat.le_refl _)) as (b & Hb & _).
    exists a, b. split; [exact Ha|]. split; [exact Hb|].
    rewrite (EscapePreservingANSI_before_ESC _ _ _ (Nat.le_refl _)), Ha.
    rewrite (EscapePreservingANSI_wellformed ps t post Hps Ht), Hb.
    reflexivity.
  - vm_compute. reflexivity.
Qed.

(** Witness of C2 on "x", ESC "[1;31m", "E". *)
Lemma EscapePreservingANSI_copies_wellformed_witness :
  Forall (fun c => isParam c = true) [0x31; 0x3b; 0x33; 0x31]%Z /\
  isLetter 0x6d%Z = true /\
  iteration [0x78; 0x1b; 0x5b; 0x31; 0x3b; 0x33; 0x31; 0x6d; 0x45]%Z
            (mkState 1 [0x78]%Z) =
    Some (mkState 8 [0x78; 0x1b; 0x5b; 0x31; 0x3b; 0x33; 0x31; 0x6d]%Z).
Proof.
  assert (Hps : Forall (fun c => isParam c = true) [0x31; 0x3b; 0x33; 0x31]%Z)
    by (repeat constructor).
  split; [exact Hps|]. split; [reflexivity|].
  exact (proj1 (EscapePreservingANSI_copies_wellformed
                  [0x78]%Z [0x31; 0x3b; 0x33; 0x31]%Z 0x6d%Z [0x45]%Z
                  Hps eq_refl) [0x78]%Z).
Defined.

(** C3.  An attempt at a sequence that is invalid or truncated: ESC "["
    and parameter runes [ps], after which the input ends or goes on with a
    rune that is neither a letter nor a parameter rune.  The execution of
    the loop body at the ESC writes U+241B alone and moves the cursor by
    one; "[" and the parameter runes are then each handled by the branch
    for ordinary runes and written as they are; and the result of the
    function is the result for [pre], U+241B, "[", [ps] and the result for
    [rest], nothing dropped.  In particular "x" ESC "[31" gives "x␛[31". *)
Theorem EscapePreservingANSI_escapes_invalid (pre ps rest : list rune) :
  Forall (fun c => isParam c = true) ps ->
  interrupts rest = true ->
  (forall sb,
     iteration (pre ++ ESC :: LBRACKET :: ps ++ rest) (mkState (length pre) sb) =
     Some (mkState (length pre + 1) (sb ++ [ESC_PICTURE]))) /\
  (forall k c sb,
     nth_error (LBRACKET :: ps) k = Some c ->
     iteration (pre ++ ESC :: LBRACKET :: ps ++ rest)
               (mkState (length pre + 1 + k) sb) =
     Some (ordinary_branch (mkState (length pre + 1 + k) sb) c) /\
     ordinary_branch (mkState (length pre + 1 + k) sb) c =
     mkState (length pre + 1 + k + 1) (sb ++ [c])) /\
  (exists a b,
     EscapePreservingANSI pre = Some a /\
     EscapePreservingANSI rest = Some b /\
     EscapePreservingANSI (pre ++ ESC :: LBRACKET :: ps ++ rest) =
       Some (a ++ ESC_PICTURE :: LBRACKET :: ps ++ b)) /\
  EscapePreservingANSI [0x78; 0x1b; 0x5b; 0x33; 0x31]%Z =
    Some [0x78; 0x241B; 0x5b; 0x33; 0x31]%Z.
Proof.
  intros Hps Hint. pose proof (interrupts_head rest Hint) as Hrest.
  assert (Hbody : Forall (fun c => c = LBRACKET \/ isParam c = true)
                         (LBRACKET :: ps)).
  { constructor; [left; reflexivity|].
    apply (Forall_impl _ (P := fun c => isParam c = true)); [|exact Hps].
    intros c Hc. right. exact Hc. }
  split; [|split; [|split]].
  - intros sb. rewrite iteration_lex.
    assert (Hpar : params rest = []).
    { destruct rest as [|t rest']; [reflexivity|]. simpl.
      destruct Hrest as [_ ->]. reflexivity. }
    rewrite (lex_sequence ps rest Hps Hpar).
    destruct rest as [|t rest']; [reflexivity|].
    destruct Hrest as [-> _]. reflexivity.
  - intros k c sb Hk.
    assert (Hc : c = LBRACKET \/ isParam c = true).
    { apply nth_error_In in Hk. rewrite Forall_forall in Hbody.
      apply Hbody. exact Hk. }
    destruct (body_rune_plain c sb Hc) as [Hesc Hsub].
    apply nth_error_split in Hk. destruct Hk as (l1 & l2 & Hl & Hlen).
    split.
    + change (ESC :: LBRACKET :: ps ++ rest)
        with (ESC :: (LBRACKET :: ps) ++ rest).
      rewrite Hl.
      replace (pre ++ ESC :: (l1 ++ c :: l2) ++ rest)
        with ((pre ++ ESC :: l1) ++ c :: (l2 ++ rest))
        by (rewrite <- !app_assoc; reflexivity).
      replace (length pre + 1 + k) with (length (pre ++ ESC :: l1))
        by (rewrite length_app; simpl; lia).
      apply iteration_ordinary. rewrite Hesc. reflexivity.
    + unfold ordinary_branch. simpl cur. simpl buf. rewrite Hsub. reflexivity.
  - destruct (EscapePreservingANSI_returns _ pre (Nat.le_refl _)) as (a & Ha & _).
    destruct (EscapePreservingANSI_returns _ rest (Nat.le_refl _)) as (b & Hb & _).
    exists a, b. split; [exact Ha|]. split; [exact Hb|].
    destruct (Escape_body _ Hbody) as [Hesc Hno].
    rewrite (EscapePreservingANSI_before_ESC _ _ _ (Nat.le_refl _)), Ha.
    rewrite (EscapePreservingANSI_invalid ps rest Hps Hrest).
    change (LBRACKET :: ps ++ rest) with ((LBRACKET :: ps) ++ rest).
    rewrite (EscapePreservingANSI_plain _ rest Hno), Hesc, Hb. reflexivity.
  - vm_compute. reflexivity.
Qed.

(** Witness of C3 on "x", ESC "[31", "!m": the sequence is interrupted by
    "!". *)
Lemma EscapePreservingANSI_escapes_invalid_witness :
  Forall (fun c => isParam c = true) [0x33; 0x31]%Z /\
  interrupts [0x21; 0x6d]%Z = true /\
  iteration [0x78; 0x1b; 0x5b; 0x33; 0x31; 0x21; 0x6d]%Z (mkState 1 [0x78]%Z) =
    Some (mkState 2 [0x78; 0x241B]%Z).
Proof.
  assert (Hps : Forall (fun c => isParam c = true) [0x33; 0x31]%Z)
    by (repeat constructor).
  split; [exact Hps|]. split; [reflexivity|].
  exact (proj1 (EscapePreservingANSI_escapes_invalid
                  [0x78]%Z [0x33; 0x31]%Z [0x21; 0x6d]%Z Hps eq_refl)
               [0x78]%Z).
Defined.

(** C6.  An ESC that is not followed at once by "[", the last rune of the
    input included: the loop body takes the branch for ordinary runes,
    which writes U+241B and moves the cursor by one, and the result of the
    function is the result for [pre], U+241B and the result for [rest].
    In particular "a" ESC "b" gives "a␛b". *)
Theorem EscapePreservingANSI_lone_ESC (pre rest : list rune) :
  followed_by_bracket rest = false ->
  (forall sb,
     iteration (pre ++ ESC :: rest) (mkState (length pre) sb) =
     Some (ordinary_branch (mkState (length pre) sb) ESC) /\
     ordinary_branch (mkState (length pre) sb) ESC =
     mkState (length pre + 1) (sb ++ [ESC_PICTURE])) /\
  (exists a b,
     EscapePreservingANSI pre = Some a /\
     EscapePreservingANSI rest = Some b /\
     EscapePreservingANSI (pre ++ ESC :: rest) = Some (a ++ ESC_PICTURE :: b)) /\
  EscapePreservingANSI [0x61; 0x1b; 0x62]%Z = Some [0x61; 0x241B; 0x62]%Z.
Proof.
  intros Hnot. split; [|split].
  - intros sb. split.
    + apply iteration_ordinary. rewrite Hnot. apply andb_false_r.
    + unfold ordinary_branch. simpl cur. simpl buf.
      rewrite substitute_exact. reflexivity.
  - destruct (EscapePreservingANSI_returns _ pre (Nat.le_refl _)) as (a & Ha & _).
    destruct (EscapePreservingANSI_returns _ rest (Nat.le_refl _)) as (b & Hb & _).
    exists a, b. split; [exact Ha|]. split; [exact Hb|].
    rewrite (EscapePreservingANSI_before_ESC _ _ _ (Nat.le_refl _)), Ha.
    rewrite EscapePreservingANSI_ordinary
      by (unfold followed_by_bracket in Hnot; rewrite Hnot; apply andb_false_r).
    rewrite Hb, substitute_exact. reflexivity.
  - vm_compute. reflexivity.
Qed.

(** Witness of C6 on "a", ESC, "b" and on an ESC that ends the input. *)
Lemma EscapePreservingANSI_lone_ESC_witness :
  followed_by_bracket [0x62]%Z = false /\
  iteration [0x61; 0x1b; 0x62]%Z (mkState 1 [0x61]%Z) =
    Some (mkState 2 [0x61; 0x241B]%Z) /\
  followed_by_bracket [] = false /\
  iteration [0x61; 0x1b]%Z (mkState 1 [0x61]%Z) =
    Some (mkState 2 [0x61; 0x241B]%Z).
Proof.
  split; [reflexivity|]. split.
  - destruct (proj1 (EscapePreservingANSI_lone_ESC [0x61]%Z [0x62]%Z eq_refl)
                    [0x61]%Z) as [H1 H2].
    exact (eq_trans H1 (f_equal Some H2)).
  - split; [reflexivity|].
    destruct (proj1 (EscapePreservingANSI_lone_ESC [0x61]%Z [] eq_refl)
                    [0x61]%Z) as [H1 H2].
    exact (eq_trans H1 (f_equal Some H2)).
Defined.

(** C5.  The output of [Escape] has as many code points as its input, and
    so has the output of [EscapePreservingANSI] (which is then at least as
    long as the input): the switch appends one rune to the builder, and an
    execution of the loop body writes as many runes as the cursor moves
    by. *)
Theorem output_length
  (s pre l : list rune) (c : rune) (sb : Builder) :
  length (Escape s) = length s /\
  (exists out,
     EscapePreservingANSI s = Some out /\
     length out = length s /\ length s <= length out) /\
  length (substitute sb c) = length sb + 1 /\
  (exists d w,
     iteration (pre ++ c :: l) (mkState (length pre) sb) =
       Some (mkState (length pre + d) (sb ++ w)) /\
     length w = d).
Proof.
  split; [apply Escape_length|]. split; [|split].
  - destruct (EscapePreservingANSI_returns _ s (Nat.le_refl _)) as (out & Ho & Hl).
    exists out. split; [exact Ho|]. split; [exact Hl|]. rewrite Hl. apply Nat.le_refl.
  - rewrite substitute_app, length_app, substitute_length. reflexivity.
  - exists (fst (lex c l)), (snd (lex c l)). split; [apply iteration_lex|].
    apply lex_bounds.
Qed.

(** C7.  The function terminates.  An execution of the loop body at a
    cursor inside the input returns and moves the cursor forward: by one
    on the branch for ordinary runes and on an invalid sequence, by the
    length of the sequence, three at least, on a well-formed one.  So the
    relation between a state of the loop and the next one is well founded,
    the loop returns from every state with the cursor at or past the end
    of the input, and the function returns. *)
Theorem EscapePreservingANSI_terminates
  (runes pre l : list rune) (c : rune) (sb : Builder) :
  (exists st',
     iteration (pre ++ c :: l) (mkState (length pre) sb) = Some st' /\
     length pre < cur st' <= length (pre ++ c :: l) /\
     ((sequence_start (pre ++ c :: l) (length pre) c = Some false /\
       cur st' = length pre + 1) \/
      (sequence_start (pre ++ c :: l) (length pre) c = Some true /\
       exists ps rest,
         c = ESC /\ l = LBRACKET :: ps ++ rest /\
         Forall (fun p => isParam p = true) ps /\
         ((interrupts rest = true /\ cur st' = length pre + 1) \/
          (exists t post,
             rest = t :: post /\ isLetter t = true /\
             cur st' = length pre + length (ESC :: LBRACKET :: ps ++ [t]) /\
             3 <= length (ESC :: LBRACKET :: ps ++ [t]))))))
  /\ well_founded (next runes)
  /\ (forall st, exists st', loop runes st = Some st' /\ length runes <= cur st')
  /\ (exists out, EscapePreservingANSI runes = Some out).
Proof.
  split; [|split; [|split]].
  - eexists. split; [apply iteration_lex|]. simpl cur.
    destruct (lex_bounds c l) as [Hd _].
    split; [rewrite length_app; simpl length; lia|].
    rewrite sequence_start_here.
    destruct ((c =? ESC)%Z && followed_by_bracket l) eqn:Hstart.
    + right. split; [reflexivity|].
      apply andb_prop in Hstart. destruct Hstart as [Hc Hb].
      apply Z.eqb_eq in Hc. subst c.
      destruct l as [|b l]; [discriminate Hb|]. simpl in Hb.
      apply Z.eqb_eq in Hb. subst b.
      destruct (sequence_shape l)
        as [(ps & t & post & Hl & Hpar & Hps & Ht)|(ps & rest & Hl & Hpar & Hps & Hint)].
      * exists ps, (t :: post). repeat split; try assumption; try (f_equal; assumption).
        right. exists t, post. split; [reflexivity|]. split; [exact Ht|].
        assert (Hrest : params (t :: post) = []).
        { simpl. destruct (isParam t) eqn:E; [|reflexivity].
          apply isParam_not_letter in E. congruence. }
        rewrite Hl, (lex_sequence ps (t :: post) Hps Hrest), Ht. simpl fst.
        simpl length. rewrite length_app. simpl length. lia.
      * exists ps, rest. repeat split; try assumption; try (f_equal; assumption).
        left. split; [exact Hint|].
        pose proof (interrupts_head rest Hint) as Hhead.
        assert (Hrest : params rest = []).
        { destruct rest as [|t rest']; [reflexivity|]. simpl.
          destruct Hhead as [_ ->]. reflexivity. }
        rewrite Hl, (lex_sequence ps rest Hps Hrest).
        destruct rest as [|t rest']; [reflexivity|].
        destruct Hhead as [-> _]. reflexivity.
    + left. split; [reflexivity|].
      assert (Hlex : lex c l = (1, substitute [] c)).
      { unfold lex. destruct l as [|b l]; [reflexivity|].
        simpl in Hstart. rewrite Hstart. reflexivity. }
      rewrite Hlex. reflexivity.
  - apply (well_founded_lt_compat _ (fun st => length runes - cur st)).
    intros st' st H. apply next_decreases. exact H.
  - intros st. apply (loop_returns runes _ st (Nat.le_refl _)).
  - destruct (EscapePreservingANSI_returns _ runes (Nat.le_refl _)) as (out & Ho & _).
    exists out. exact Ho.
Qed.

(** C8.  Neither function has a failure path.  [EscapePreservingANSI]
    returns on every input, the empty one included, so no slice is indexed
    out of range on the way; the loop body returns at every cursor inside
    the input, whatever the builder holds; [Escape] has no operation that
    can fail; and in the switch the rune addition does not wrap and the
    pictures are written as they are. *)
Theorem no_failure_path
  (content pre l : list rune) (c : rune) (sb : Builder) :
  (exists out, EscapePreservingANSI content = Some out) /\
  (exists st', iteration (pre ++ c :: l) (mkState (length pre) sb) = Some st') /\
  EscapePreservingANSI [] = Some [] /\
  Escape [] = [] /\
  EscapePreservingANSI [0x78; 0x1b; 0x5b; 0x33; 0x31; 0x3b]%Z =
    Some [0x78; 0x241B; 0x5b; 0x33; 0x31; 0x3b]%Z /\
  length (Escape content) = length content /\
  substitute sb c =
    sb ++ [if ((0 <=? c) && (c <=? 0x1f))%Z then (0x2400 + c)%Z
           else if (c =? 0x7f)%Z then 0x2421%Z
           else written c].
Proof.
  split; [|split; [|split; [|split; [|split; [|split]]]]].
  - destruct (EscapePreservingANSI_returns _ content (Nat.le_refl _))
      as (out & Ho & _).
    exists out. exact Ho.
  - rewrite iteration_lex. eexists. reflexivity.
  - reflexivity.
  - reflexivity.
  - vm_compute. reflexivity.
  - apply Escape_length.
  - apply substitute_exact.
Qed.

(** * Further properties of the escaping functions *)

(** Text that needs no escaping: runes that are valid and not control
    characters, and well-formed sequences ESC "[" parameters letter. *)
Inductive sanitized : list rune -> Prop :=
| sanitized_nil : sanitized []
| sanitized_rune (c : rune) (l : list rune) :
    ValidRune c = true -> isControl c = false ->
    sanitized l -> sanitized (c :: l)
| sanitized_run (ps : list rune) (t : rune) (l : list rune) :
    Forall (fun c => isParam c = true) ps -> isLetter t = true ->
    sanitized l -> sanitized (ESC :: LBRACKET :: ps ++ t :: l).

(** [out] follows [s] rune by rune: each rune of [out] is what the switch
    writes for the rune of [s] at its place, or is an ESC of [s] that was
    kept. *)
Definition keeps_ESC (out s : list rune) : Prop :=
  Forall2 (fun o c => substitute [] c = [o] \/ (o = ESC /\ c = ESC)) out s.

Lemma Escape_concat (l1 l2 : list rune) :
  Escape (l1 ++ l2) = Escape l1 ++ Escape l2.
Proof.
  unfold Escape. rewrite fold_left_app. apply fold_substitute.
Qed.

Lemma substitute_valid (r : rune) :
  Forall (fun c => ValidRune c = true) (substitute [] r).
Proof.
  rewrite substitute_exact, app_nil_l. constructor; [|constructor].
  destruct ((0 <=? r)%Z && (r <=? 31)%Z) eqn:E.
  - unfold ValidRune, surrogateMin, surrogateMax, MaxRune. lia.
  - destruct (r =? 127)%Z; [reflexivity|].
    unfold written. destruct (ValidRune r) eqn:Hr; [exact Hr|reflexivity].
Qed.

Lemma Escape_valid (s : list rune) :
  Forall (fun c => ValidRune c = true) (Escape s).
Proof.
  induction s as [|c s IH]; [constructor|].
  rewrite Escape_cons. apply Forall_app. split; [apply substitute_valid|exact IH].
Qed.

Lemma Escape_not_control (s : list rune) :
  Forall (fun c => isControl c = false) (Escape s).
Proof.
  induction s as [|c s IH]; [constructor|].
  rewrite Escape_cons. apply Forall_app.
  split; [apply substitute_not_control|exact IH].
Qed.

(** [Escape] leaves alone a text of valid runes without control
    characters. *)
Lemma Escape_fixed (l : list rune) :
  Forall (fun c => ValidRune c = true) l ->
  Forall (fun c => isControl c = false) l ->
  Escape l = l.
Proof.
  intros Hv Hc. rewrite (Escape_pictures l Hv). clear Hv.
  induction Hc as [|c l Hc _ IH]; [reflexivity|].
  simpl. rewrite IH, (picture_plain c Hc). reflexivity.
Qed.

Lemma plain_rune_fixed (c : rune) :
  ValidRune c = true -> isControl c = false ->
  substitute [] c = [c] /\ (c =? ESC)%Z = false.
Proof.
  intros Hv Hc. split.
  - rewrite (substitute_picture c Hv), (picture_plain c Hc). reflexivity.
  - unfold isControl in Hc. unfold ESC. lia.
Qed.

Lemma sanitized_app (a b : list rune) :
  sanitized a -> sanitized b -> sanitized (a ++ b).
Proof.
  intros Ha Hb. induction Ha as [|c l Hv Hc _ IH|ps t l Hps Ht _ IH].
  - exact Hb.
  - simpl. apply sanitized_rune; assumption.
  - simpl. rewrite <- app_assoc. simpl. apply sanitized_run; assumption.
Qed.

(** The function returns a sanitized text as it is. *)
Lemma sanitized_fixed (l : list rune) :
  sanitized l -> EscapePreservingANSI l = Some l.
Proof.
  induction 1 as [|c l Hv Hc _ IH|ps t l Hps Ht _ IH].
  - reflexivity.
  - destruct (plain_rune_fixed c Hv Hc) as [Hsub Hesc].
    rewrite EscapePreservingANSI_ordinary by (rewrite Hesc; reflexivity).
    rewrite IH, Hsub. reflexivity.
  - rewrite (EscapePreservingANSI_wellformed ps t l Hps Ht), IH. simpl.
    rewrite <- app_assoc. reflexivity.
Qed.

(** What one execution of the loop body writes is sanitized. *)
Lemma lex_sanitized (c : rune) (l : list rune) : sanitized (snd (lex c l)).
Proof.
  assert (Hsub : sanitized (substitute [] c)).
  { pose proof (substitute_valid c) as Hv.
    pose proof (substitute_not_control c) as Hc.
    destruct (substitute [] c) as [|x [|y q]] eqn:E;
      try (apply (f_equal (@length rune)) in E;
           rewrite substitute_length in E; discriminate E).
    inversion Hv; inversion Hc; subst.
    apply sanitized_rune; [assumption|assumption|constructor]. }
  assert (Hpic : sanitized [ESC_PICTURE])
    by (apply sanitized_rune; [reflexivity|reflexivity|constructor]).
  unfold lex. destruct l as [|b l]; [exact Hsub|].
  destruct ((c =? ESC)%Z && (b =? LBRACKET)%Z) eqn:Hstart; [|exact Hsub].
  apply andb_prop in Hstart. destruct Hstart as [Hc Hb].
  apply Z.eqb_eq in Hc, Hb. subst c b.
  destruct (skipn (length (params l)) l) as [|t rest]; [exact Hpic|].
  destruct (isLetter t) eqn:Ht; [|exact Hpic]. simpl snd.
  replace (params l ++ [t]) with (params l ++ t :: []) by reflexivity.
  apply sanitized_run; [apply params_all|exact Ht|constructor].
Qed.

Lemma EscapePreservingANSI_sanitizes (n : nat) :
  forall s : list rune,
    length s <= n ->
    exists out, EscapePreservingANSI s = Some out /\ sanitized out.
Proof.
  induction n as [|n IH]; intros [|c l] Hn; simpl in Hn; try lia;
    try (exists []; split; [reflexivity|constructor]).
  destruct (lex_bounds c l) as [Hd _].
  destruct (IH (skipn (fst (lex c l)) (c :: l))) as (out & Hout & Hs).
  { rewrite length_skipn. simpl length. lia. }
  exists (snd (lex c l) ++ out). rewrite EscapePreservingANSI_cons, Hout.
  split; [reflexivity|]. apply sanitized_app; [apply lex_sanitized|exact Hs].
Qed.

Lemma sanitized_controls (l : list rune) :
  sanitized l -> Forall (fun c => isControl c = true -> c = ESC) l.
Proof.
  induction 1 as [|c l Hv Hc _ IH|ps t l Hps Ht _ IH].
  - constructor.
  - constructor; [intros H; congruence|exact IH].
  - constructor; [intros _; reflexivity|].
    constructor; [intros H; discriminate H|].
    apply Forall_app. split.
    + apply (Forall_impl _ (P := fun c => isParam c = true)); [|exact Hps].
      intros c Hc H. unfold isParam in Hc. unfold isControl in H. lia.
    + constructor; [|exact IH].
      intros H. unfold isLetter in Ht. unfold isControl in H. lia.
Qed.

Lemma split_after_plain (a l pre rest : list rune) :
  ~ In ESC a ->
  a ++ l = pre ++ ESC :: rest ->
  exists pre', l = pre' ++ ESC :: rest.
Proof.
  revert pre. induction a as [|x a IH]; intros pre Hno Heq.
  - exists pre. exact Heq.
  - destruct pre as [|y pre]; simpl in Heq; injection Heq as Hx Heq.
    + exfalso. apply Hno. left. exact Hx.
    + apply (IH pre); [|exact Heq]. intros H. apply Hno. right. exact H.
Qed.

(** In a sanitized text every ESC starts a well-formed sequence. *)
Lemma sanitized_ESC (out : list rune) :
  sanitized out ->
  forall pre rest,
    out = pre ++ ESC :: rest ->
    exists ps t post,
      rest = LBRACKET :: ps ++ t :: post /\
      Forall (fun c => isParam c = true) ps /\ isLetter t = true.
Proof.
  induction 1 as [|c l Hv Hc _ IH|ps t l Hps Ht Hl IH]; intros pre rest Heq.
  - destruct pre; discriminate Heq.
  - destruct pre as [|y pre]; simpl in Heq; injection Heq as Hx Heq.
    + subst c. discriminate Hc.
    + apply (IH pre rest). exact Heq.
  - destruct pre as [|y pre]; simpl in Heq.
    + injection Heq as Heq.
      exists ps, t, l. repeat split; try assumption. symmetry. exact Heq.
    + injection Heq as _ Heq.
      assert (Hno : ~ In ESC (LBRACKET :: ps ++ [t])).
      { intros [H|H]; [discriminate H|]. apply in_app_or in H.
        destruct H as [H|[H|[]]].
        - rewrite Forall_forall in Hps. apply Hps in H. discriminate H.
        - subst t. discriminate Ht. }
      destruct (split_after_plain (LBRACKET :: ps ++ [t]) l pre rest Hno)
        as [pre' Hpre'].
      { simpl. rewrite <- app_assoc. exact Heq. }
      apply (IH pre' rest). exact Hpre'.
Qed.

Lemma letter_plain (t : rune) :
  isLetter t = true -> substitute [] t = [t].
Proof.
  intros Ht. apply plain_rune_fixed; [apply isLetter_valid, Ht|].
  unfold isLetter in Ht. unfold isControl. lia.
Qed.

(** The three things an execution of the loop body can do. *)
Lemma lex_cases (c : rune) (l : list rune) :
  (lex c l = (1, substitute [] c)) \/
  (c = ESC /\ lex c l = (1, [ESC_PICTURE])) \/
  (c = ESC /\
   exists ps t,
     Forall (fun p => isParam p = true) ps /\ isLetter t = true /\
     lex c l = (length ps + 3, ESC :: LBRACKET :: ps ++ [t]) /\
     firstn (length ps + 3) (c :: l) = ESC :: LBRACKET :: ps ++ [t]).
Proof.
  unfold lex. destruct l as [|b l]; [left; reflexivity|].
  destruct ((c =? ESC)%Z && (b =? LBRACKET)%Z) eqn:Hstart; [|left; reflexivity].
  apply andb_prop in Hstart. destruct Hstart as [Hc Hb].
  apply Z.eqb_eq in Hc, Hb. subst c b. right.
  pose proof (params_prefix l) as Hl. pose proof (params_all l) as Hps.
  destruct (skipn (length (params l)) l) as [|t rest];
    [left; split; reflexivity|].
  destruct (isLetter t) eqn:Ht; [|left; split; reflexivity].
  right. split; [reflexivity|]. exists (params l), t.
  split; [exact Hps|]. split; [exact Ht|]. split; [reflexivity|].
  replace (length (params l) + 3) with (S (S (length (params l) + 1))) by lia.
  simpl firstn. rewrite Hl at 2.
  rewrite firstn_app, firstn_all2 by lia.
  replace (length (params l) + 1 - length (params l)) with 1 by lia.
  reflexivity.
Qed.

Lemma substitute_single (c : rune) : exists x, substitute [] c = [x].
Proof. rewrite substitute_exact. eexists. reflexivity. Qed.

Lemma keeps_ESC_body (l : list rune) :
  Forall (fun c => substitute [] c = [c]) l -> keeps_ESC l l.
Proof.
  induction 1 as [|c l Hc _ IH]; constructor; [left; exact Hc|exact IH].
Qed.

Lemma sequence_runes_plain (ps : list rune) (t : rune) :
  Forall (fun p => isParam p = true) ps -> isLetter t = true ->
  Forall (fun c => substitute [] c = [c]) (LBRACKET :: ps ++ [t]).
Proof.
  intros Hps Ht. constructor; [reflexivity|]. apply Forall_app. split.
  - apply (Forall_impl _ (P := fun c => isParam c = true)); [|exact Hps].
    intros c Hc. apply (body_rune_plain c []). right. exact Hc.
  - constructor; [apply letter_plain, Ht|constructor].
Qed.

Lemma Escape_plain_runes (l : list rune) :
  Forall (fun c => substitute [] c = [c]) l -> Escape l = l.
Proof.
  induction 1 as [|c l Hc _ IH]; [reflexivity|].
  rewrite Escape_cons, Hc, IH. reflexivity.
Qed.

(** What the loop body writes follows the runes the cursor passes. *)
Lemma lex_keeps_ESC (c : rune) (l : list rune) :
  keeps_ESC (snd (lex c l)) (firstn (fst (lex c l)) (c :: l)) /\
  Escape (snd (lex c l)) = Escape (firstn (fst (lex c l)) (c :: l)).
Proof.
  destruct (lex_cases c l)
    as [H|[[Hc H]|[Hc (ps & t & Hps & Ht & H & Hfirst)]]]; rewrite H;
    simpl fst; simpl snd.
  - destruct (substitute_single c) as [x Hx]. simpl firstn. split.
    + rewrite Hx. constructor; [left; exact Hx|constructor].
    + change (Escape [c]) with (fold_left substitute [] (substitute [] c)).
      simpl fold_left. apply Escape_fixed.
      * apply substitute_valid.
      * apply substitute_not_control.
  - subst c. simpl firstn. split; [|reflexivity].
    constructor; [left; reflexivity|constructor].
  - subst c. rewrite Hfirst. split; [|reflexivity].
    constructor; [right; split; reflexivity|].
    apply keeps_ESC_body, sequence_runes_plain; assumption.
Qed.

Lemma EscapePreservingANSI_follows (n : nat) :
  forall s : list rune,
    length s <= n ->
    exists out,
      EscapePreservingANSI s = Some out /\
      keeps_ESC out s /\ Escape out = Escape s.
Proof.
  induction n as [|n IH]; intros [|c l] Hn; simpl in Hn; try lia;
    try (exists []; split; [reflexivity|split; [constructor|reflexivity]]).
  destruct (lex_bounds c l) as [Hd _].
  destruct (lex_keeps_ESC c l) as [Hk He].
  destruct (IH (skipn (fst (lex c l)) (c :: l))) as (out & Hout & Hk' & He').
  { rewrite length_skipn. simpl length. lia. }
  exists (snd (lex c l) ++ out). rewrite EscapePreservingANSI_cons, Hout.
  split; [reflexivity|].
  pose proof (firstn_skipn (fst (lex c l)) (c :: l)) as Hsplit.
  set (hd := firstn (fst (lex c l)) (c :: l)) in *.
  set (tl := skipn (fst (lex c l)) (c :: l)) in *.
  rewrite <- Hsplit. split.
  - apply Forall2_app; assumption.
  - rewrite !Escape_concat, He, He'. reflexivity.
Qed.

(** X1.  [Escape] is idempotent: its output holds valid runes that are not
    control characters, and it returns such a text as it is. *)
Theorem Escape_idempotent (s : list rune) :
  Escape (Escape s) = Escape s.
Proof.
  apply Escape_fixed; [apply Escape_valid|apply Escape_not_control].
Qed.


(** X3.  The output of [EscapePreservingANSI] is sanitized: its runes are
    valid, the only control character in it is ESC, and every ESC in it
    starts a well-formed sequence ESC "[" parameters letter. *)
Theorem EscapePreservingANSI_output_sanitized (s : list rune) :
  exists out,
    EscapePreservingANSI s = Some out /\
    sanitized out /\
    Forall (fun c => ValidRune c = true) out /\
    Forall (fun c => isControl c = true -> c = ESC) out /\
    (forall pre rest,
       out = pre ++ ESC :: rest ->
       exists ps t post,
         rest = LBRACKET :: ps ++ t :: post /\
         Forall (fun c => isParam c = true) ps /\ isLetter t = true).
Proof.
  destruct (EscapePreservingANSI_sanitizes _ s (Nat.le_refl _)) as (out & Ho & Hs).
  exists out. split; [exact Ho|]. split; [exact Hs|]. split; [|split].
  - clear Ho. induction Hs as [|c l Hv Hc _ IH|ps t l Hps Ht _ IH].
    + constructor.
    + constructor; assumption.
    + constructor; [reflexivity|]. constructor; [reflexivity|].
      apply Forall_app. split.
      * apply (Forall_impl _ (P := fun c => isParam c = true)); [|exact Hps].
        intros c Hc. apply isParam_valid, Hc.
      * constructor; [apply isLetter_valid, Ht|exact IH].
  - apply sanitized_controls, Hs.
  - apply sanitized_ESC, Hs.
Qed.

(** X4.  [EscapePreservingANSI] returns a sanitized text unchanged. *)
Theorem EscapePreservingANSI_sanitized_unchanged (l : list rune) :
  sanitized l -> EscapePreservingANSI l = Some l.
Proof. apply sanitized_fixed. Qed.

(** Witness of X4 on "e", ESC "[0;1m", "é". *)
Lemma EscapePreservingANSI_sanitized_unchanged_witness :
  sanitized [0x65; 0x1b; 0x5b; 0x30; 0x3b; 0x31; 0x6d; 0xe9]%Z /\
  EscapePreservingANSI [0x65; 0x1b; 0x5b; 0x30; 0x3b; 0x31; 0x6d; 0xe9]%Z =
    Some [0x65; 0x1b; 0x5b; 0x30; 0x3b; 0x31; 0x6d; 0xe9]%Z.
Proof.
  assert (H : sanitized [0x65; 0x1b; 0x5b; 0x30; 0x3b; 0x31; 0x6d; 0xe9]%Z).
  { apply sanitized_rune; [reflexivity|reflexivity|].
    apply (sanitized_run [0x30; 0x3b; 0x31]%Z 0x6d%Z [0xe9]%Z).
    - repeat constructor.
    - reflexivity.
    - apply sanitized_rune; [reflexivity|reflexivity|constructor]. }
  split; [exact H|].
  exact (EscapePreservingANSI_sanitized_unchanged _ H).
Defined.

(** X5.  [EscapePreservingANSI] is idempotent: run on its own output it
    returns that output. *)
Theorem EscapePreservingANSI_idempotent (s : list rune) :
  exists out,
    EscapePreservingANSI s = Some out /\
    EscapePreservingANSI out = Some out.
Proof.
  destruct (EscapePreservingANSI_sanitizes _ s (Nat.le_refl _)) as (out & Ho & Hs).
  exists out. split; [exact Ho|]. apply sanitized_fixed, Hs.
Qed.

(** X6.  The output of [EscapePreservingANSI] follows the input rune by
    rune: each rune of the output is what the switch of [Escape] writes
    for the input rune at the same place, or is an ESC of the input kept
    where it is.  So an output without ESC is the output of [Escape]. *)
Theorem EscapePreservingANSI_follows_input (s : list rune) :
  exists out,
    EscapePreservingANSI s = Some out /\
    keeps_ESC out s /\
    (~ In ESC out -> out = Escape s).
Proof.
  destruct (EscapePreservingANSI_follows _ s (Nat.le_refl _))
    as (out & Ho & Hk & _).
  exists out. split; [exact Ho|]. split; [exact Hk|].
  clear Ho. induction Hk as [|o c out s [Hsub|[Ho _]] _ IH]; intros Hno.
  - reflexivity.
  - rewrite Escape_cons, Hsub, <- IH; [reflexivity|].
    intros H. apply Hno. right. exact H.
  - exfalso. apply Hno. left. exact Ho.
Qed.

(** X7.  Escaping the output of [EscapePreservingANSI] gives what
    [Escape] gives on the input: the sequences that were kept are the
    only difference between the two functions. *)
Theorem Escape_after_EscapePreservingANSI (s : list rune) :
  exists out,
    EscapePreservingANSI s = Some out /\ Escape out = Escape s.
Proof.
  destruct (EscapePreservingANSI_follows _ s (Nat.le_refl _))
    as (out & Ho & _ & He).
  exists out. split; assumption.
Qed.

(** X8.  The input can be cut before any ESC: the result for the whole is
    the result for the part before the ESC followed by the result for the
    part from the ESC on. *)
Theorem EscapePreservingANSI_cut_at_ESC (pre rest : list rune) :
  exists a b,
    EscapePreservingANSI pre = Some a /\
    EscapePreservingANSI (ESC :: rest) = Some b /\
    EscapePreservingANSI (pre ++ ESC :: rest) = Some (a ++ b).
Proof.
  destruct (EscapePreservingANSI_returns _ pre (Nat.le_refl _)) as (a & Ha & _).
  destruct (EscapePreservingANSI_returns _ (ESC :: rest) (Nat.le_refl _))
    as (b & Hb & _).
  exists a, b. split; [exact Ha|]. split; [exact Hb|].
  rewrite (EscapePreservingANSI_before_ESC _ _ _ (Nat.le_refl _)), Ha, Hb.
  reflexivity.
Qed.



(** * gitutil: the branch of a repository, read from [.git/HEAD]

    The package [gitutil] of [branch.go].  A Go string is a sequence of
    bytes: here a [string] of the Standard Library, a sequence of 8-bit
    characters.  [strings.HasPrefix] and [strings.TrimPrefix] are modelled
    from their definitions in the Go library.  The file system and the
    functions of [path/filepath] are parameters of the model: a call sees
    one state of the file system. *)

From Stdlib Require String.

Module gitutil.

Import String.

Definition gitDir : string := ".git"%string.
Definition headFile : string := "HEAD"%string.
Definition refPrefix : string := "ref: refs/heads/"%string.

(** [len(s) >= len(prefix) && s[:len(prefix)] == prefix] *)
Definition HasPrefix (s prefix : string) : bool :=
  (String.length prefix <=? String.length s) &&
  String.eqb (substring 0 (String.length prefix) s) prefix.

(** [if HasPrefix(s, prefix) { return s[len(prefix):] }; return s] *)
Definition TrimPrefix (s prefix : string) : string :=
  if HasPrefix s prefix
  then substring (String.length prefix)
                 (String.length s - String.length prefix) s
  else s.

Definition parseHeadRef (content : string) : string :=
  if HasPrefix content refPrefix
  then TrimPrefix content refPrefix
  else EmptyString.

(** ** Strings and their prefixes *)

Lemma length_append (a b : string) :
  String.length (a ++ b) = String.length a + String.length b.
Proof. induction a as [|c a IH]; simpl; [reflexivity|rewrite IH; reflexivity]. Qed.

Lemma substring_whole (s : string) : substring 0 (String.length s) s = s.
Proof. induction s as [|c s IH]; simpl; [reflexivity|rewrite IH; reflexivity]. Qed.

Lemma substring_head (p b : string) :
  substring 0 (String.length p) (p ++ b) = p.
Proof.
  induction p as [|c p IH]; simpl; [destruct b; reflexivity|].
  rewrite IH. reflexivity.
Qed.

Lemma substring_tail (p b : string) :
  substring (String.length p) (String.length b) (p ++ b) = b.
Proof.
  induction p as [|c p IH]; simpl; [apply substring_whole|exact IH].
Qed.

Lemma substring_split (n : nat) :
  forall s : string,
    n <= String.length s ->
    s = (substring 0 n s ++ substring n (String.length s - n) s)%string.
Proof.
  induction n as [|n IH]; intros s Hn.
  - rewrite Nat.sub_0_r, substring_whole. destruct s; reflexivity.
  - destruct s as [|c s]; simpl in Hn; [lia|]. simpl.
    rewrite <- IH by lia. reflexivity.
Qed.

Lemma HasPrefix_append (p b : string) : HasPrefix (p ++ b) p = true.
Proof.
  unfold HasPrefix. rewrite substring_head, String.eqb_refl, length_append.
  rewrite andb_true_r. apply Nat.leb_le. lia.
Qed.

Lemma HasPrefix_inv (s p : string) :
  HasPrefix s p = true ->
  s = (p ++ substring (String.length p) (String.length s - String.length p) s)%string.
Proof.
  unfold HasPrefix. intros H. apply andb_prop in H. destruct H as [Hlen Heq].
  apply Nat.leb_le in Hlen. apply String.eqb_eq in Heq.
  rewrite <- Heq at 1. apply substring_split. exact Hlen.
Qed.

Lemma TrimPrefix_append (p b : string) : TrimPrefix (p ++ b) p = b.
Proof.
  unfold TrimPrefix. rewrite HasPrefix_append, length_append.
  replace (String.length p + String.length b - String.length p)
    with (String.length b) by lia.
  apply substring_tail.
Qed.

(** X10.  [parseHeadRef] returns the branch name of a HEAD that points to
    a branch: what follows ["ref: refs/heads/"], whatever it is (slashes
    included, and the empty name too). *)
Theorem parseHeadRef_branch (b : string) :
  parseHeadRef (refPrefix ++ b) = b.
Proof.
  unfold parseHeadRef. rewrite HasPrefix_append. apply TrimPrefix_append.
Qed.

(** X11.  [parseHeadRef] returns a branch name only for a content that
    starts with ["ref: refs/heads/"]: the content is then that prefix
    followed by the result; any other content (a commit of a detached
    HEAD, the empty content) gives the empty string. *)
Theorem parseHeadRef_cases (content : string) :
  (exists b, content = (refPrefix ++ b)%string /\ parseHeadRef content = b) \/
  ((forall b, content <> (refPrefix ++ b)%string) /\
   parseHeadRef content = EmptyString).
Proof.
  unfold parseHeadRef. destruct (HasPrefix content refPrefix) eqn:H.
  - left. apply HasPrefix_inv in H.
    exists (substring (String.length refPrefix)
                      (String.length content - String.length refPrefix) content).
    split; [exact H|]. rewrite H at 1. apply TrimPrefix_append.
  - right. split; [|reflexivity].
    intros b Hb. rewrite Hb, HasPrefix_append in H. discriminate H.
Qed.

Section FileSystem.

(** [filepath.Abs], [None] for an error; [filepath.Join] of two
    elements; [filepath.Dir]. *)
Variable Abs : string -> option string.
Variable Join : string -> string -> string.
Variable Dir : string -> string.

(** [os.Stat]: [None] for an error, else what [info.IsDir()] returns. *)
Variable Stat : string -> option bool.

(** [os.ReadFile], [None] for an error. *)
Variable ReadFile : string -> option string.

Variable TrimSpace : string -> string.

(** The loop [for { ... }] of [findGitDir], run for at most [fuel]
    turns; [None] when the turns are used up. *)
Fixpoint findGitDir_loop (fuel : nat) (absDir : string) : option string :=
  match fuel with
  | 0 => None
  | S fuel' =>
      let gitPath := Join absDir gitDir in
      match Stat gitPath with
      | Some true => Some gitPath
      | _ =>
          let parent := Dir absDir in
          if String.eqb parent absDir then Some EmptyString
          else findGitDir_loop fuel' parent
      end
  end.

Definition findGitDir (fuel : nat) (dir : string) : option string :=
  match Abs dir with
  | None => Some EmptyString
  | Some absDir => findGitDir_loop fuel absDir
  end.

Definition GetCurrentBranch (fuel : nat) (dir : string) : option string :=
  match findGitDir fuel dir with
  | None => None
  | Some gitPath =>
      if String.eqb gitPath EmptyString then Some EmptyString
      else
        match ReadFile (Join gitPath headFile) with
        | None => Some EmptyString
        | Some content => Some (parseHeadRef (TrimSpace content))
        end
  end.

(** The [k]-th directory above [d]. *)
Definition ancestor (k : nat) (d : string) : string := Nat.iter k Dir d.

(** [d] holds a directory [.git]. *)
Definition has_git (d : string) : bool :=
  match Stat (Join d gitDir) with
  | Some true => true
  | _ => false
  end.

Lemma ancestor_next (k : nat) (d : string) :
  ancestor (S k) d = ancestor k (Dir d).
Proof. unfold ancestor. apply Nat.iter_succ_r. Qed.

Lemma findGitDir_loop_found (fuel : nat) :
  forall absDir p,
    findGitDir_loop fuel absDir = Some p ->
    exists k,
      k < fuel /\
      (forall j, j < k ->
         has_git (ancestor j absDir) = false /\
         ancestor (S j) absDir <> ancestor j absDir) /\
      ((has_git (ancestor k absDir) = true /\
        p = Join (ancestor k absDir) gitDir) \/
       (has_git (ancestor k absDir) = false /\
        Dir (ancestor k absDir) = ancestor k absDir /\
        p = EmptyString)).
Proof.
  induction fuel as [|fuel IH]; intros absDir p; [discriminate|].
  simpl.
  assert (Hnot : Stat (Join absDir gitDir) <> Some true ->
                 (if String.eqb (Dir absDir) absDir then Some EmptyString
                  else findGitDir_loop fuel (Dir absDir)) = Some p ->
                 exists k,
      k < S fuel /\
      (forall j, j < k ->
         has_git (ancestor j absDir) = false /\
         ancestor (S j) absDir <> ancestor j absDir) /\
      ((has_git (ancestor k absDir) = true /\
        p = Join (ancestor k absDir) gitDir) \/
       (has_git (ancestor k absDir) = false /\
        Dir (ancestor k absDir) = ancestor k absDir /\
        p = EmptyString))).
  { intros Hstat.
    assert (Hgit : has_git absDir = false).
    { unfold has_git. destruct (Stat (Join absDir gitDir)) as [[|]|];
        [congruence|reflexivity|reflexivity]. }
    destruct (String.eqb (Dir absDir) absDir) eqn:Hroot.
    - intros [= <-]. apply String.eqb_eq in Hroot.
      exists 0. split; [lia|]. split; [intros j Hj; lia|].
      right. repeat split; assumption.
    - intros Hrec. apply String.eqb_neq in Hroot.
      apply IH in Hrec. destruct Hrec as (k & Hk & Hbefore & Hat).
      exists (S k). split; [lia|]. split.
      + intros [|j] Hj.
        * split; [exact Hgit|exact Hroot].
        * rewrite (ancestor_next (S j)), (ancestor_next j).
          apply Hbefore. lia.
      + rewrite ancestor_next. exact Hat. }
  destruct (Stat (Join absDir gitDir)) as [[|]|] eqn:Hstat;
    try (apply Hnot; discriminate).
  intros [= <-]. exists 0. split; [lia|]. split; [intros j Hj; lia|].
  left. split; [|reflexivity]. unfold has_git. simpl. rewrite Hstat.
  reflexivity.
Qed.

(** More turns do not change a result. *)
Lemma findGitDir_loop_more (fuel : nat) :
  forall fuel' absDir p,
    fuel <= fuel' ->
    findGitDir_loop fuel absDir = Some p ->
    findGitDir_loop fuel' absDir = Some p.
Proof.
  induction fuel as [|fuel IH]; intros fuel' absDir p Hle; [discriminate|].
  destruct fuel' as [|fuel']; [lia|]. simpl.
  destruct (Stat (Join absDir gitDir)) as [[|]|];
    try exact (fun H => H);
    (destruct (String.eqb (Dir absDir) absDir); [exact (fun H => H)|];
     apply IH; lia).
Qed.

(** The loop returns as soon as it has the turns to reach a directory
    that is its own parent. *)
Lemma findGitDir_loop_returns (n : nat) :
  forall absDir,
    Dir (ancestor n absDir) = ancestor n absDir ->
    exists p, findGitDir_loop (S n) absDir = Some p.
Proof.
  induction n as [|n IH]; intros absDir Hroot.
  - simpl in *. destruct (Stat (Join absDir gitDir)) as [[|]|];
      try (eexists; reflexivity);
      rewrite Hroot, String.eqb_refl; eexists; reflexivity.
  - rewrite ancestor_next in Hroot. apply IH in Hroot.
    destruct Hroot as [p Hp].
    change (findGitDir_loop (S (S n)) absDir) with
      (match Stat (Join absDir gitDir) with
       | Some true => Some (Join absDir gitDir)
       | _ => if String.eqb (Dir absDir) absDir then Some EmptyString
              else findGitDir_loop (S n) (Dir absDir)
       end).
    destruct (Stat (Join absDir gitDir)) as [[|]|];
      try (eexists; reflexivity);
      (destruct (String.eqb (Dir absDir) absDir);
       [eexists; reflexivity|exists p; exact Hp]).
Qed.

(** The loop finds the first directory above [absDir] that holds
    [.git], when it can walk up to it. *)
Lemma findGitDir_loop_reaches (k : nat) :
  forall absDir fuel,
    k < fuel ->
    has_git (ancestor k absDir) = true ->
    (forall j, j < k ->
       has_git (ancestor j absDir) = false /\
       ancestor (S j) absDir <> ancestor j absDir) ->
    findGitDir_loop fuel absDir = Some (Join (ancestor k absDir) gitDir).
Proof.
  induction k as [|k IH]; intros absDir [|fuel] Hk Hgit Hbefore; try lia.
  - simpl. unfold has_git in Hgit. simpl in Hgit.
    destruct (Stat (Join absDir gitDir)) as [[|]|];
      [reflexivity|discriminate Hgit|discriminate Hgit].
  - destruct (Hbefore 0) as [H0 Hroot]; [lia|].
    unfold has_git in H0. simpl in H0, Hroot.
    apply String.eqb_neq in Hroot.
    change (ancestor (S k) absDir) with (Dir (ancestor k absDir)) in *.
    simpl.
    assert (Hrec : findGitDir_loop fuel (Dir absDir) =
                   Some (Join (ancestor (S k) absDir) gitDir)).
    { rewrite ancestor_next. apply IH; [lia|rewrite <- ancestor_next; exact Hgit|].
      intros j Hj. rewrite <- !ancestor_next. apply Hbefore. lia. }
    destruct (Stat (Join absDir gitDir)) as [[|]|];
      [discriminate H0|rewrite Hroot; exact Hrec|rewrite Hroot; exact Hrec].
Qed.

(** X12.  What [findGitDir] returns is the [.git] of the nearest
    directory at or above the absolute path of [dir] that holds one; it
    returns the empty string only if [filepath.Abs] fails or the walk
    reaches a directory that is its own parent without finding any. *)
Theorem findGitDir_nearest (fuel : nat) (dir p : string) :
  findGitDir fuel dir = Some p ->
  (Abs dir = None /\ p = EmptyString) \/
  (exists absDir k,
     Abs dir = Some absDir /\ k < fuel /\
     (forall j, j < k ->
        has_git (ancestor j absDir) = false /\
        ancestor (S j) absDir <> ancestor j absDir) /\
     ((has_git (ancestor k absDir) = true /\
       p = Join (ancestor k absDir) gitDir) \/
      (has_git (ancestor k absDir) = false /\
       Dir (ancestor k absDir) = ancestor k absDir /\
       p = EmptyString))).
Proof.
  unfold findGitDir. destruct (Abs dir) as [absDir|].
  - intros H. right. apply findGitDir_loop_found in H.
    destruct H as (k & H). exists absDir, k. split; [reflexivity|exact H].
  - intros [= <-]. left. split; reflexivity.
Qed.

(** X13.  [findGitDir] returns: if the [n]-th directory above the
    absolute path is its own parent (the root), the loop returns within
    [n + 1] turns, and more turns give the same result. *)
Theorem findGitDir_returns (n : nat) (dir absDir : string) :
  Abs dir = Some absDir ->
  Dir (ancestor n absDir) = ancestor n absDir ->
  exists p,
    findGitDir (S n) dir = Some p /\
    forall fuel, n < fuel -> findGitDir fuel dir = Some p.
Proof.
  intros Habs Hroot. unfold findGitDir. rewrite Habs.
  destruct (findGitDir_loop_returns n absDir Hroot) as [p Hp].
  exists p. split; [exact Hp|].
  intros fuel Hfuel. apply (findGitDir_loop_more (S n)); [lia|exact Hp].
Qed.

(** X14.  In a repository with a readable HEAD, [GetCurrentBranch]
    called on a directory [k] levels below the one that holds [.git]
    returns what [parseHeadRef] reads in the trimmed content of HEAD. *)
Theorem GetCurrentBranch_in_repository
  (fuel k : nat) (dir absDir content : string) :
  Abs dir = Some absDir ->
  k < fuel ->
  has_git (ancestor k absDir) = true ->
  (forall j, j < k ->
     has_git (ancestor j absDir) = false /\
     ancestor (S j) absDir <> ancestor j absDir) ->
  Join (ancestor k absDir) gitDir <> EmptyString ->
  ReadFile (Join (Join (ancestor k absDir) gitDir) headFile) = Some content ->
  GetCurrentBranch fuel dir = Some (parseHeadRef (TrimSpace content)).
Proof.
  intros Habs Hk Hgit Hbefore Hpath Hread.
  unfold GetCurrentBranch, findGitDir. rewrite Habs.
  rewrite (findGitDir_loop_reaches k absDir fuel Hk Hgit Hbefore).
  apply String.eqb_neq in Hpath. rewrite Hpath, Hread. reflexivity.
Qed.

(** X15.  A branch name that [GetCurrentBranch] returns comes from a
    HEAD file: if the result is not empty, the nearest directory at or
    above [dir] with a [.git] has a readable [.git/HEAD] whose trimmed
    content is ["ref: refs/heads/"] followed by the result. *)
Theorem GetCurrentBranch_nonempty (fuel : nat) (dir b : string) :
  GetCurrentBranch fuel dir = Some b ->
  b <> EmptyString ->
  exists absDir k content,
    Abs dir = Some absDir /\
    has_git (ancestor k absDir) = true /\
    (forall j, j < k -> has_git (ancestor j absDir) = false) /\
    ReadFile (Join (Join (ancestor k absDir) gitDir) headFile) = Some content /\
    TrimSpace content = (refPrefix ++ b)%string.
Proof.
  unfold GetCurrentBranch. intros H Hb.
  destruct (findGitDir fuel dir) as [p|] eqn:Hfind; [|discriminate H].
  destruct (String.eqb p EmptyString) eqn:Hp; [congruence|].
  apply String.eqb_neq in Hp.
  destruct (ReadFile (Join p headFile)) as [content|] eqn:Hread; [|congruence].
  injection H as H.
  apply findGitDir_nearest in Hfind.
  destruct Hfind as [[_ Hempty]|(absDir & k & Habs & _ & Hbefore & Hat)];
    [contradiction|].
  destruct Hat as [[Hgit Hpath]|(_ & _ & Hempty)]; [|contradiction].
  exists absDir, k, content. subst p.
  split; [exact Habs|]. split; [exact Hgit|].
  split; [intros j Hj; apply Hbefore, Hj|]. split; [exact Hread|].
  destruct (parseHeadRef_cases (TrimSpace content))
    as [(b' & Hc & Hb')|[_ Hnone]]; [|congruence].
  rewrite Hc. congruence.
Qed.

(** X16.  Outside a repository [GetCurrentBranch] returns the empty
    string: when no directory from the absolute path up to the root
    holds a [.git], however many turns the loop has beyond the walk. *)
Theorem GetCurrentBranch_outside_repository
  (fuel n : nat) (dir absDir : string) :
  Abs dir = Some absDir ->
  Dir (ancestor n absDir) = ancestor n absDir ->
  (forall j, j <= n -> has_git (ancestor j absDir) = false) ->
  n < fuel ->
  GetCurrentBranch fuel dir = Some EmptyString.
Proof.
  intros Habs Hroot Hnone Hfuel.
  destruct (findGitDir_loop_returns n absDir Hroot) as [p Hp].
  assert (Hempty : p = EmptyString).
  { destruct (findGitDir_loop_found _ _ _ Hp) as (k & Hk & _ & Hat).
    destruct Hat as [[Hgit _]|(_ & _ & H)]; [|exact H].
    rewrite Hnone in Hgit by lia. discriminate Hgit. }
  subst p. unfold GetCurrentBranch, findGitDir. rewrite Habs.
  rewrite (findGitDir_loop_more (S n) fuel absDir EmptyString) by (lia || exact Hp).
  reflexivity.
Qed.

End FileSystem.


(** ** A small file system

    The directory [/w] holds a repository on the branch [develop];
    [/w/src] is a directory in it, and [/tmp] is outside any repository. *)

Definition example_Abs (d : string) : option string := Some d.

Definition example_Join (a b : string) : string := (a ++ "/" ++ b)%string.

Definition example_Dir (d : string) : string :=
  if String.eqb d "/w/src" then "/w"%string else "/"%string.

Definition example_Stat (p : string) : option bool :=
  if String.eqb p "/w/.git" then Some true
  else if String.eqb p "/w/.git/HEAD" then Some false
  else None.

Definition example_ReadFile (p : string) : option string :=
  if String.eqb p "/w/.git/HEAD" then Some "ref: refs/heads/develop"%string
  else None.

Definition example_TrimSpace (s : string) : string := s.

Lemma example_before (j : nat) :
  j < 1 ->
  has_git example_Join example_Stat
          (ancestor example_Dir j "/w/src") = false /\
  ancestor example_Dir (S j) "/w/src" <> ancestor example_Dir j "/w/src".
Proof.
  intros Hj. assert (j = 0) by lia. subst j.
  split; [reflexivity|]. vm_compute. discriminate.
Qed.

(** Witness of X12: from [/w/src] the walk stops one level up. *)
Lemma findGitDir_nearest_witness :
  findGitDir example_Abs example_Join example_Dir example_Stat 5 "/w/src" =
    Some "/w/.git"%string /\
  ((example_Abs "/w/src" = None /\ "/w/.git"%string = EmptyString) \/
   (exists absDir k,
      example_Abs "/w/src" = Some absDir /\ k < 5 /\
      (forall j, j < k ->
         has_git example_Join example_Stat (ancestor example_Dir j absDir)
           = false /\
         ancestor example_Dir (S j) absDir <> ancestor example_Dir j absDir) /\
      ((has_git example_Join example_Stat (ancestor example_Dir k absDir)
          = true /\
        "/w/.git"%string = example_Join (ancestor example_Dir k absDir) gitDir) \/
       (has_git example_Join example_Stat (ancestor example_Dir k absDir)
          = false /\
        example_Dir (ancestor example_Dir k absDir)
          = ancestor example_Dir k absDir /\
        "/w/.git"%string = EmptyString)))).
Proof.
  split; [reflexivity|].
  exact (findGitDir_nearest example_Abs example_Join example_Dir example_Stat
           5 "/w/src" "/w/.git" eq_refl).
Defined.

(** Witness of X13: two levels above [/w/src] is the root. *)
Lemma findGitDir_returns_witness :
  example_Abs "/w/src" = Some "/w/src"%string /\
  example_Dir (ancestor example_Dir 2 "/w/src") =
    ancestor example_Dir 2 "/w/src" /\
  exists p,
    findGitDir example_Abs example_Join example_Dir example_Stat 3 "/w/src"
      = Some p /\
    forall fuel, 2 < fuel ->
      findGitDir example_Abs example_Join example_Dir example_Stat fuel "/w/src"
        = Some p.
Proof.
  split; [reflexivity|]. split; [reflexivity|].
  exact (findGitDir_returns example_Abs example_Join example_Dir example_Stat
           2 "/w/src" "/w/src" eq_refl eq_refl).
Defined.

(** Witness of X14: the branch of [/w/src] is [develop]. *)
Lemma GetCurrentBranch_in_repository_witness :
  has_git example_Join example_Stat (ancestor example_Dir 1 "/w/src") = true /\
  example_ReadFile
    (example_Join (example_Join (ancestor example_Dir 1 "/w/src") gitDir)
                  headFile) = Some "ref: refs/heads/develop"%string /\
  GetCurrentBranch example_Abs example_Join example_Dir example_Stat
                   example_ReadFile example_TrimSpace 5 "/w/src" =
    Some "develop"%string.
Proof.
  split; [reflexivity|]. split; [reflexivity|].
  assert (Hpath : example_Join (ancestor example_Dir 1 "/w/src") gitDir
                  <> EmptyString) by (vm_compute; discriminate).
  assert (Hk : 1 < 5) by lia.
  exact (GetCurrentBranch_in_repository
           example_Abs example_Join example_Dir example_Stat
           example_ReadFile example_TrimSpace
           5 1 "/w/src" "/w/src" "ref: refs/heads/develop"
           eq_refl Hk eq_refl example_before Hpath eq_refl).
Defined.

(** Witness of X15 on the same call. *)
Lemma GetCurrentBranch_nonempty_witness :
  GetCurrentBranch example_Abs example_Join example_Dir example_Stat
                   example_ReadFile example_TrimSpace 5 "/w/src" =
    Some "develop"%string /\
  "develop"%string <> EmptyString /\
  exists absDir k content,
    example_Abs "/w/src" = Some absDir /\
    has_git example_Join example_Stat (ancestor example_Dir k absDir) = true /\
    (forall j, j < k ->
       has_git example_Join example_Stat (ancestor example_Dir j absDir)
         = false) /\
    example_ReadFile
      (example_Join (example_Join (ancestor example_Dir k absDir) gitDir)
                    headFile) = Some content /\
    example_TrimSpace content = (refPrefix ++ "develop")%string.
Proof.
  assert (Hb : "develop"%string <> EmptyString) by discriminate.
  split; [reflexivity|]. split; [exact Hb|].
  exact (GetCurrentBranch_nonempty
           example_Abs example_Join example_Dir example_Stat
           example_ReadFile example_TrimSpace
           5 "/w/src" "develop" eq_refl Hb).
Defined.

Lemma example_outside (j : nat) :
  j <= 1 ->
  has_git example_Join example_Stat (ancestor example_Dir j "/tmp") = false.
Proof.
  intros Hj. destruct j as [|[|j]]; [reflexivity|reflexivity|lia].
Qed.

(** Witness of X16: [/tmp] is in no repository. *)
Lemma GetCurrentBranch_outside_repository_witness :
  example_Abs "/tmp" = Some "/tmp"%string /\
  example_Dir (ancestor example_Dir 1 "/tmp") = ancestor example_Dir 1 "/tmp" /\
  GetCurrentBranch example_Abs example_Join example_Dir example_Stat
                   example_ReadFile example_TrimSpace 4 "/tmp" =
    Some EmptyString.
Proof.
  split; [reflexivity|]. split; [reflexivity|].
  assert (Hfuel : 1 < 4) by lia.
  exact (GetCurrentBranch_outside_repository
           example_Abs example_Join example_Dir example_Stat
           example_ReadFile example_TrimSpace
           4 1 "/tmp" "/tmp" eq_refl eq_refl example_outside Hfuel).
Defined.

End gitutil.
